(** * J.A.R.V.I.S: the command classification and dispatch pipeline

    A shallow embedding of [SmartCommandProcessor] (src/jarvis.py), of the
    branch of [EnhancedJarvisAssistant.process_command] that consumes its
    result, and of the keyword scan of [JarvisAssistant.process_command]
    (src/jarvis12/J.A.R.V.I.S.py), followed by the properties the
    specification states about them.

    Python strings are sequences of code points; they are modelled as
    [list N].  The Python built-ins the code calls ([str.strip],
    [str.lower], [str.startswith], [in], [str.replace], [re.compile],
    [Pattern.search], [Match.groups]) are modelled in the modules [PyStr]
    and [Re].  On ASCII text they are defined outright; the parts of the
    Unicode Character Database that reach beyond ASCII and that the
    interpreter reads from generated tables (full lower-casing, the
    alphanumeric property, case-insensitive literal equivalence) are the
    fields of the class [unicode_db]. *)

From Stdlib Require Import NArith ZArith Ascii String.
From stdpp Require Import base list strings gmap lexico sorting.

Local Open Scope N_scope.

(** Code points and strings. *)
Abbreviation cp := N (only parsing).
Abbreviation str := (list N) (only parsing).

(** [u "..."] is the Python literal with the same ASCII text. *)
Fixpoint u (s : string) : str :=
  match s with
  | EmptyString => []
  | String a s' => N_of_ascii a :: u s'
  end.

Definition ch (a : ascii) : cp := N_of_ascii a.

(** The tables of the Unicode database that are not written out here. *)
Class unicode_db := {
  (** [case_operation(self, do_lower)]: full lower-casing of a string that
      is not pure ASCII (context sensitive: final sigma). *)
  uni_lower : str -> str;
  (** [Py_UNICODE_ISALNUM] on a code point above 127. *)
  uni_isalnum : cp -> bool;
  (** Whether a text character matches a pattern literal under
      [re.IGNORECASE] when one of the two is above 127. *)
  uni_literal_ignore : cp -> cp -> bool
}.

(** ** Python [str] methods *)
Module PyStr.

Definition is_ascii (c : cp) : bool := c <? 128.

(** [_Py_ascii_whitespace]: TAB LF VT FF CR, FS GS RS US, SPACE. *)
Definition ascii_whitespace (c : cp) : bool :=
  ((9 <=? c) && (c <=? 13)) || ((28 <=? c) && (c <=? 32)).

(** [_PyUnicode_IsWhitespace]: the code points of bidirectional type WS,
    B or S, or of category Zs. *)
Definition unicode_whitespace (c : cp) : bool :=
  ((9 <=? c) && (c <=? 13)) || ((28 <=? c) && (c <=? 32))
  || (c =? 133) || (c =? 160) || (c =? 5760)
  || ((8192 <=? c) && (c <=? 8202))
  || (c =? 8232) || (c =? 8233) || (c =? 8239) || (c =? 8287)
  || (c =? 12288).

(** [Py_UNICODE_ISSPACE]. *)
Definition isspace (c : cp) : bool :=
  if is_ascii c then ascii_whitespace c else unicode_whitespace c.

Definition ascii_isalnum (c : cp) : bool :=
  ((48 <=? c) && (c <=? 57)) || ((65 <=? c) && (c <=? 90))
  || ((97 <=? c) && (c <=? 122)).

Definition ascii_tolower (c : cp) : cp :=
  if (65 <=? c) && (c <=? 90) then c + 32 else c.

Section WithUnicode.
Context {U : unicode_db}.

Definition isalnum (c : cp) : bool :=
  if is_ascii c then ascii_isalnum c else uni_isalnum c.

(** [str.lower]: the ASCII fast path, otherwise the database. *)
Definition lower (s : str) : str :=
  if forallb is_ascii s then map ascii_tolower s else uni_lower s.

End WithUnicode.

Fixpoint lstrip (s : str) : str :=
  match s with
  | c :: t => if isspace c then lstrip t else s
  | [] => []
  end.

Definition rstrip (s : str) : str := reverse (lstrip (reverse s)).

(** [str.strip()] with no argument: white space off both ends. *)
Definition strip (s : str) : str := rstrip (lstrip s).

Fixpoint startswith (s prefix : str) : bool :=
  match prefix, s with
  | [], _ => true
  | p :: ps, c :: t => (c =? p) && startswith t ps
  | _ :: _, [] => false
  end.

(** [sub in s]. *)
Fixpoint contains (s sub : str) : bool :=
  startswith s sub ||
  match s with
  | [] => false
  | _ :: t => contains t sub
  end.

(** [s.replace(old, new)] for a non-empty [old]: occurrences are replaced
    left to right without overlap; [skip] counts the characters of the
    occurrence just replaced that are still to be passed over. *)
Fixpoint replace_from (old new : str) (skip : nat) (s : str) : str :=
  match s with
  | [] => []
  | c :: t =>
      match skip with
      | S n => replace_from old new n t
      | O => if startswith s old
             then new ++ replace_from old new (length old - 1) t
             else c :: replace_from old new 0 t
      end
  end.

Definition replace (s old new : str) : str := replace_from old new 0 s.

(** [x in l] for a list of strings. *)
Definition in_list (x : str) (l : list str) : bool :=
  existsb (fun y => bool_decide (x = y)) l.

End PyStr.

(** ** The [re] module

    The fragment of the pattern language that the command table uses:
    literals, [.], [\s], [\b], [^], [+] after a one-character item,
    capturing groups and alternation.  Constructors carry the names of the
    opcodes of the regular-expression engine. *)
Module Re.
Import PyStr.

Inductive at_code := AT_BEGINNING | AT_BOUNDARY.

(** One-character items other than literals: [.] and [\s]. *)
Inductive set_code := ANY | CATEGORY_SPACE.

Inductive op :=
| EMPTY
| LITERAL (c : cp)
| IN (k : set_code)
| AT (a : at_code)
| MAX_REPEAT (k : set_code)          (* k+ : at least one, greedy *)
| SUBPATTERN (g : nat) (p : op)      (* capturing group number g *)
| BRANCH (p q : op)                  (* p|q, p tried first *)
| SEQ (p q : op).

(** *** Parsing a pattern *)

(** An open group (or the top level) during parsing: its number, the
    alternatives completed so far and the items of the current one, both
    most recent first. *)
Record frame := {
  f_group : nat;
  f_branches : list op;
  f_items : list op
}.

Definition seq_of (items : list op) : op :=
  fold_left (fun acc x => SEQ x acc) items EMPTY.

Definition close (f : frame) : op :=
  fold_left (fun acc b => BRANCH b acc) (f_branches f) (seq_of (f_items f)).

Definition push (x : op) (f : frame) : frame :=
  {| f_group := f_group f; f_branches := f_branches f;
     f_items := x :: f_items f |}.

Definition special (c : cp) : bool :=
  existsb (N.eqb c) (u "*?{}[]$").

Fixpoint parse (s : str) (ngroups : nat) (cur : frame) (stack : list frame)
  : option (op * nat) :=
  match s with
  | [] =>
      match stack with
      | [] => Some (close cur, ngroups)
      | _ :: _ => None
      end
  | c :: t =>
      if c =? ch "(" then
        parse t (S ngroups)
          {| f_group := S ngroups; f_branches := []; f_items := [] |}
          (cur :: stack)
      else if c =? ch ")" then
        match stack with
        | [] => None
        | up :: stack' =>
            parse t ngroups (push (SUBPATTERN (f_group cur) (close cur)) up)
              stack'
        end
      else if c =? ch "|" then
        parse t ngroups
          {| f_group := f_group cur;
             f_branches := seq_of (f_items cur) :: f_branches cur;
             f_items := [] |}
          stack
      else if c =? ch "+" then
        match f_items cur with
        | IN k :: items =>
            parse t ngroups
              {| f_group := f_group cur; f_branches := f_branches cur;
                 f_items := MAX_REPEAT k :: items |}
              stack
        | _ => None
        end
      else if c =? ch "." then parse t ngroups (push (IN ANY) cur) stack
      else if c =? ch "^" then
        parse t ngroups (push (AT AT_BEGINNING) cur) stack
      else if c =? ch "\" then
        match t with
        | e :: t' =>
            if e =? ch "s" then
              parse t' ngroups (push (IN CATEGORY_SPACE) cur) stack
            else if e =? ch "b" then
              parse t' ngroups (push (AT AT_BOUNDARY) cur) stack
            else None
        | [] => None
        end
      else if special c then None
      else parse t ngroups (push (LITERAL c) cur) stack
  end.

(** A compiled pattern object. *)
Record Pattern := {
  ignorecase : bool;
  groups : nat;
  code : op
}.

(** [re.compile(pattern, flags)]; [None] stands for [re.error] (or for a
    pattern outside the fragment). *)
Definition compile (pattern : str) (IGNORECASE : bool) : option Pattern :=
  match parse pattern 0 {| f_group := 0; f_branches := []; f_items := [] |} []
  with
  | Some (p, n) => Some {| ignorecase := IGNORECASE; groups := n; code := p |}
  | None => None
  end.

(** *** Matching *)

(** The matcher's state: the character before the current position (if
    any), the text from the current position on, and what each group
    captured so far ([None]: the group did not take part). *)
Record mstate := {
  prev : option cp;
  rest : str;
  marks : list (option str)
}.

Definition advance (c : cp) (t : str) (st : mstate) : mstate :=
  {| prev := Some c; rest := t; marks := marks st |}.

(** The text consumed between two states of one match. *)
Definition consumed (from to : mstate) : str :=
  take (length (rest from) - length (rest to)) (rest from).

Definition set_mark (g : nat) (s : str) (st : mstate) : mstate :=
  {| prev := prev st; rest := rest st;
     marks := <[Nat.pred g := Some s]> (marks st) |}.

Definition in_set (k : set_code) (c : cp) : bool :=
  match k with
  | ANY => negb (c =? 10)               (* no DOTALL: anything but newline *)
  | CATEGORY_SPACE => isspace c
  end.

Section WithUnicode.
Context {U : unicode_db}.

Definition literal_ignore (p c : cp) : bool :=
  if is_ascii p && is_ascii c then ascii_tolower c =? ascii_tolower p
  else uni_literal_ignore p c.

Definition literal_eq (ic : bool) (p c : cp) : bool :=
  if ic then literal_ignore p c else c =? p.

(** [\w] for a [str] pattern. *)
Definition is_word (c : cp) : bool := isalnum c || (c =? 95).

Definition at_ok (a : at_code) (st : mstate) : bool :=
  match a with
  | AT_BEGINNING => match prev st with None => true | Some _ => false end
  | AT_BOUNDARY =>
      let that := match prev st with Some c => is_word c | None => false end in
      let this := match rest st with c :: _ => is_word c | [] => false end in
      xorb that this
  end.

Definition cont := mstate -> option mstate.

(** Greedy repetition after [x] has been consumed and [t] remains: the
    longer matches are tried first, the continuation last. *)
Fixpoint repeat_more (k : set_code) (mk : list (option str)) (x : cp)
    (t : str) (kont : cont) : option mstate :=
  match
    match t with
    | y :: t' => if in_set k y then repeat_more k mk y t' kont else None
    | [] => None
    end
  with
  | Some r => Some r
  | None => kont {| prev := Some x; rest := t; marks := mk |}
  end.

(** Backtracking matcher: [sre_match ic p st kont] matches [p] at [st]
    and hands every way of doing so, in priority order, to [kont] until
    one succeeds. *)
Fixpoint sre_match (ic : bool) (p : op) (st : mstate) (kont : cont)
  : option mstate :=
  match p with
  | EMPTY => kont st
  | LITERAL c =>
      match rest st with
      | x :: t => if literal_eq ic c x then kont (advance x t st) else None
      | [] => None
      end
  | IN k =>
      match rest st with
      | x :: t => if in_set k x then kont (advance x t st) else None
      | [] => None
      end
  | AT a => if at_ok a st then kont st else None
  | MAX_REPEAT k =>
      match rest st with
      | x :: t => if in_set k x then repeat_more k (marks st) x t kont
                  else None
      | [] => None
      end
  | SUBPATTERN g q =>
      sre_match ic q st (fun st' => kont (set_mark g (consumed st st') st'))
  | BRANCH q1 q2 =>
      match sre_match ic q1 st kont with
      | Some r => Some r
      | None => sre_match ic q2 st kont
      end
  | SEQ q1 q2 => sre_match ic q1 st (fun st' => sre_match ic q2 st' kont)
  end.

Definition match_at (p : Pattern) (pr : option cp) (s : str)
  : option mstate :=
  sre_match (ignorecase p) (code p)
    {| prev := pr; rest := s; marks := replicate (groups p) None |} Some.

(** [Pattern.search]: the first position, left to right, at which the
    pattern matches. *)
Fixpoint search_from (p : Pattern) (pr : option cp) (s : str)
  : option mstate :=
  match match_at p pr s with
  | Some m => Some m
  | None =>
      match s with
      | [] => None
      | c :: t => search_from p (Some c) t
      end
  end.

Definition search (p : Pattern) (s : str) : option mstate :=
  search_from p None s.

End WithUnicode.

(** [Match.groups()]. *)
Definition match_groups (m : mstate) : list (option str) := marks m.

(** Group number [i+1] has a value. *)
Definition has_value (m : list (option str)) (i : nat) : Prop :=
  exists s, m !! i = Some (Some s).

(** The groups only ever gain values during a match. *)
Definition marks_le (m1 m2 : list (option str)) : Prop :=
  length m1 = length m2 /\ forall i, has_value m1 i -> has_value m2 i.

(** *** Static properties of a pattern *)

(** Every group number of [p] lies in [1..n]. *)
Fixpoint numbered (n : nat) (p : op) : bool :=
  match p with
  | SUBPATTERN g q => (1 <=? g)%nat && (g <=? n)%nat && numbered n q
  | BRANCH q1 q2 | SEQ q1 q2 => numbered n q1 && numbered n q2
  | _ => true
  end.

(** Group [g] lies on every path through [p]: a match cannot avoid it. *)
Fixpoint sets (p : op) (g : nat) : bool :=
  match p with
  | SUBPATTERN g' q => (g =? g')%nat || sets q g
  | SEQ q1 q2 => sets q1 g || sets q2 g
  | BRANCH q1 q2 => sets q1 g && sets q2 g
  | _ => false
  end.

(** All the groups of the pattern are numbered and unavoidable. *)
Definition groups_mandatory (p : Pattern) : bool :=
  numbered (groups p) (code p)
  && forallb (sets (code p)) (seq 1 (groups p)).

(** The shape [^(head)\s+(.+)] of the patterns that carry a free-text
    argument in their second group. *)
Definition query_shape (head : op) : op :=
  SEQ (AT AT_BEGINNING)
    (SEQ (SUBPATTERN 1 head)
       (SEQ (MAX_REPEAT CATEGORY_SPACE)
          (SEQ (SUBPATTERN 2 (SEQ (MAX_REPEAT ANY) EMPTY)) EMPTY))).

#[global] Instance at_code_eq_dec : EqDecision at_code.
Proof. solve_decision. Defined.
#[global] Instance set_code_eq_dec : EqDecision set_code.
Proof. solve_decision. Defined.
#[global] Instance op_eq_dec : EqDecision op.
Proof. solve_decision. Defined.

Definition has_query_shape (p : Pattern) : bool :=
  match code p with
  | SEQ _ (SEQ (SUBPATTERN _ head) _) =>
      bool_decide (code p = query_shape head)
      && numbered 2 head && (groups p =? 2)%nat
  | _ => false
  end.

End Re.

(** ** Values and exceptions *)

(** The values that travel as [groups] / [extracted_data]: [None], a
    string, or a tuple whose elements are strings or [None]. *)
Inductive data :=
| data_None
| data_str (s : str)
| data_tuple (l : list (option str)).

Inductive exn := AttributeError | IndexError.

Inductive result (A : Type) :=
| Return (a : A)
| Raise (e : exn).
Arguments Return {A} a.
Arguments Raise {A} e.

(** Truth value of a [data] in a condition. *)
Definition truthy (d : data) : bool :=
  match d with
  | data_None => false
  | data_str s => negb (bool_decide (s = []))
  | data_tuple l => negb (bool_decide (l = []))
  end.

(** ** src/jarvis.py: [SmartCommandProcessor] *)
Module SmartCommandProcessor.
Import PyStr.

(** The object: its two attributes, both dictionaries in insertion
    order. *)
Record t := {
  command_patterns : list (string * list string);
  compiled_patterns : list (string * list Re.Pattern)
}.

(** A method runs on [self] and leaves a [self] behind. *)
Definition method (A : Type) := t -> A * t.
Definition ret {A} (a : A) : method A := fun self => (a, self).
Definition bind {A B} (m : method A) (f : A -> method B) : method B :=
  fun self => let '(a, self') := m self in f a self'.
Definition get_self : method t := fun self => (self, self).
Definition value_of {A} (m : method A) (self : t) : A := fst (m self).
Definition self_after {A} (m : method A) (self : t) : t := snd (m self).

Definition the_command_patterns : list (string * list string) :=
  [ ("time",
      [ "\b(what\s+time|current\s+time|time\s+is|tell\s+me\s+the\s+time)\b";
        "\btime\b" ]);
    ("date",
      [ "\b(what\s+date|current\s+date|date\s+is|today\s+is)\b";
        "\bdate\b" ]);
    ("weather",
      [ "\b(weather|temperature|forecast|climate)\b" ]);
    ("search",
      [ "^(search\s+for|look\s+up|find\s+information\s+about|tell\s+me\s+about)\s+(.+)";
        "^(what\s+is|who\s+is|where\s+is|when\s+is|how\s+is)\s+(.+)";
        "^(define|explain|describe)\s+(.+)" ]);
    ("open_website",
      [ "^open\s+(.+)";
        "^go\s+to\s+(.+)";
        "^navigate\s+to\s+(.+)" ]);
    ("greeting",
      [ "\b(hello|hi|hey|greetings|good\s+morning|good\s+afternoon|good\s+evening)\b" ]);
    ("thanks",
      [ "\b(thank\s+you|thanks|appreciate|grateful)\b" ]);
    ("status",
      [ "\b(how\s+are\s+you|status|condition|state)\b" ]);
    ("clear",
      [ "\b(clear\s+screen|clear\s+display|clean\s+screen)\b" ]) ]%string.

(** [__init__]: every pattern is compiled with [re.IGNORECASE]; a
    pattern that does not compile aborts the construction. *)
Definition init : option t :=
  compiled ← mapM (fun '(command, patterns) =>
                     ps ← mapM (fun pattern => Re.compile (u pattern) true)
                               patterns;
                     Some (command, ps))
                  the_command_patterns;
  Some {| command_patterns := the_command_patterns;
          compiled_patterns := compiled |}.

Section WithUnicode.
Context {U : unicode_db}.

(** The inner loop of [classify_command]: the patterns of one command. *)
Fixpoint try_patterns (command : string) (patterns : list Re.Pattern)
    (text : str) : option (string * data) :=
  match patterns with
  | [] => None
  | pattern :: patterns' =>
      match Re.search pattern text with
      | Some m =>
          let groups := Re.match_groups m in
          Some (command,
                if bool_decide (groups = []) then data_None
                else data_tuple groups)
      | None => try_patterns command patterns' text
      end
  end.

(** The outer loop: the commands in dictionary order. *)
Fixpoint try_commands (items : list (string * list Re.Pattern)) (text : str)
  : option (string * data) :=
  match items with
  | [] => None
  | (command, patterns) :: items' =>
      match try_patterns command patterns text with
      | Some r => Some r
      | None => try_commands items' text
      end
  end.

Definition classify_command (text : str) : method (string * data) :=
  let text := lower (strip text) in
  bind get_self (fun self =>
  match try_commands (compiled_patterns self) text with
  | Some r => ret r
  | None => ret ("general"%string, data_str text)
  end).

Definition prefixes : list string :=
  [ "search for"; "look up"; "find information about"; "tell me about";
    "what is"; "who is"; "where is"; "when is"; "how is";
    "define"; "explain"; "describe" ]%string.

(** The loop over [prefixes] of [extract_search_query]. *)
Fixpoint remove_prefix (text text_lower : str) (l : list string) : str :=
  match l with
  | [] => text
  | prefix :: l' =>
      if startswith text_lower (u prefix)
      then strip (drop (length (u prefix)) text)
      else remove_prefix text text_lower l'
  end.

(** [extract_search_query(text, groups)].  The guard
    [groups and len(groups) > 0] is the truth value of [groups]: a
    [None], an empty tuple and an empty string are false, and [len] is
    positive for every other tuple or string.  [groups[-1]] is the last
    element of a tuple and the last character of a string; [.strip()] of
    a [None] element raises [AttributeError]. *)
Definition extract_search_query (text : str) (groups : data)
  : method (result str) :=
  if truthy groups then
    match groups with
    | data_tuple l =>
        match last l with
        | Some (Some g) => ret (Return (strip g))
        | Some None => ret (Raise AttributeError)
        | None => ret (Raise IndexError)
        end
    | data_str s =>
        match last s with
        | Some c => ret (Return (strip [c]))
        | None => ret (Raise IndexError)
        end
    | data_None => ret (Raise AttributeError)
    end
  else
    let text_lower := lower text in
    ret (Return (remove_prefix text text_lower prefixes)).

End WithUnicode.
End SmartCommandProcessor.

(** ** src/jarvis.py: [EnhancedJarvisAssistant.process_command] *)
Module EnhancedJarvisAssistant.
Import PyStr.

(** The handler a command is dispatched to, with its argument. *)
Inductive handler :=
| handle_time_command
| handle_date_command
| handle_weather_command (command : str)
| handle_search_command (query : str)
| handle_open_website (site : option str)
| handle_greeting
| handle_thanks
| handle_status_query
| handle_clear_screen
| handle_general_query (command : str)
| no_handler.

Section WithUnicode.
Context {U : unicode_db}.

(** [extracted_data[0] if isinstance(extracted_data, tuple)
     else extracted_data]. *)
Definition site_of (extracted_data : data) : result (option str) :=
  match extracted_data with
  | data_tuple l =>
      match l !! 0%nat with
      | Some x => Return x
      | None => Raise IndexError
      end
  | data_str s => Return (Some s)
  | data_None => Return None
  end.

(** The dispatch of [process_command] on the processor
    [self.command_processor]: which handler runs, or the exception that
    escapes. *)
Definition process_command (command : str)
  : SmartCommandProcessor.method (result handler) :=
  SmartCommandProcessor.bind (SmartCommandProcessor.classify_command command)
  (fun '(command_type, extracted_data) =>
  if String.eqb command_type "time" then
    SmartCommandProcessor.ret (Return handle_time_command)
  else if String.eqb command_type "date" then
    SmartCommandProcessor.ret (Return handle_date_command)
  else if String.eqb command_type "weather" then
    SmartCommandProcessor.ret (Return (handle_weather_command command))
  else if String.eqb command_type "search" then
    SmartCommandProcessor.bind
      (SmartCommandProcessor.extract_search_query command extracted_data)
      (fun r =>
         SmartCommandProcessor.ret
           match r with
           | Return query => Return (handle_search_command query)
           | Raise e => Raise e
           end)
  else if String.eqb command_type "open_website" then
    SmartCommandProcessor.ret
      (if truthy extracted_data then
         match site_of extracted_data with
         | Return site => Return (handle_open_website site)
         | Raise e => Raise e
         end
       else Return no_handler)
  else if String.eqb command_type "greeting" then
    SmartCommandProcessor.ret (Return handle_greeting)
  else if String.eqb command_type "thanks" then
    SmartCommandProcessor.ret (Return handle_thanks)
  else if String.eqb command_type "status" then
    SmartCommandProcessor.ret (Return handle_status_query)
  else if String.eqb command_type "clear" then
    SmartCommandProcessor.ret (Return handle_clear_screen)
  else
    SmartCommandProcessor.ret (Return (handle_general_query command))).

End WithUnicode.
End EnhancedJarvisAssistant.

(** ** src/jarvis12/J.A.R.V.I.S.py: [JarvisAssistant.process_command] *)
Module JarvisAssistant.
Import PyStr.

(** The branch of the keyword scan that answers a command. *)
Inductive branch :=
| answer_time
| answer_date
| answer_clear
| answer_greeting
| answer_thanks
| answer_status
| answer_search (query : str)
| answer_open (site : str)
| answer_weather
| answer_news
| answer_ollama_or_default (command : str).

Definition any_in (words : list string) (cmd : str) : bool :=
  existsb (fun word => contains cmd (u word)) words.

Section WithUnicode.
Context {U : unicode_db}.

Definition process_command (command : str) : branch :=
  let cmd := strip (lower command) in
  if in_list cmd [u "time"; u "what time"; u "what's the time"] then
    answer_time
  else if in_list cmd [u "date"; u "what date"; u "what's the date"] then
    answer_date
  else if contains cmd (u "clear") && contains cmd (u "screen") then
    answer_clear
  else if any_in ["hello"; "hi"; "hey"; "greetings"]%string cmd then
    answer_greeting
  else if any_in ["thank"; "thanks"; "appreciate"]%string cmd then
    answer_thanks
  else if any_in ["how are you"; "how do you do"]%string cmd then
    answer_status
  else if startswith cmd (u "search for ") || startswith cmd (u "look up ")
  then
    answer_search (replace (replace cmd (u "search for ") []) (u "look up ") [])
  else if startswith cmd (u "open ") then
    answer_open (replace cmd (u "open ") [])
  else if contains cmd (u "weather") then answer_weather
  else if contains cmd (u "news") then answer_news
  else answer_ollama_or_default command.

End WithUnicode.

(** The intent of [SmartCommandProcessor]'s vocabulary that a branch
    serves ([news] has none there and keeps its own name). *)
Definition intent_of (b : branch) : string :=
  match b with
  | answer_time => "time"
  | answer_date => "date"
  | answer_clear => "clear"
  | answer_greeting => "greeting"
  | answer_thanks => "thanks"
  | answer_status => "status"
  | answer_search _ => "search"
  | answer_open _ => "open_website"
  | answer_weather => "weather"
  | answer_news => "news"
  | answer_ollama_or_default _ => "general"
  end.

End JarvisAssistant.

(** ** A database without case beyond ASCII

    The instance in which no code point above 127 is a letter: lower-casing
    only touches the ASCII capitals.  It is used to run the functions on
    concrete non-ASCII inputs. *)
Definition caseless_db : unicode_db := {|
  uni_lower := map PyStr.ascii_tolower;
  uni_isalnum := fun _ => false;
  uni_literal_ignore := fun p c => c =? p
|}.



(** ** The running assistant *)

(** The processor that the assistant constructs at start-up
    ([self.command_processor = SmartCommandProcessor()]). *)
Definition command_processor : SmartCommandProcessor.t :=
  Eval vm_compute in
    default {| SmartCommandProcessor.command_patterns := [];
               SmartCommandProcessor.compiled_patterns := [] |}
            SmartCommandProcessor.init.

(** What [classify_command] returns on it. *)
Definition classify {U : unicode_db} (text : str) : string * data :=
  SmartCommandProcessor.value_of
    (SmartCommandProcessor.classify_command text) command_processor.

(** Some pattern of the list is found in the text. *)
Definition some_matches {U : unicode_db} (patterns : list Re.Pattern)
    (text : str) : Prop :=
  Exists (fun p => is_Some (Re.search p text)) patterns.

(** The value [classify_command] builds from a match:
    [groups if groups else None]. *)
Definition groups_or_None (m : Re.mstate) : data :=
  if bool_decide (Re.match_groups m = []) then data_None
  else data_tuple (Re.match_groups m).

(** The checks on the table of the running assistant that the proofs
    below rest on: no group of any pattern can be avoided, and the
    patterns of [search] have the shape [^(head)\s+(.+)]. *)
Definition table_groups_mandatory (self : SmartCommandProcessor.t) : bool :=
  forallb (fun item => forallb Re.groups_mandatory item.2)
          (SmartCommandProcessor.compiled_patterns self).

Definition table_search_shape (self : SmartCommandProcessor.t) : bool :=
  forallb (fun item => if String.eqb item.1 "search"
                       then forallb Re.has_query_shape item.2 else true)
          (SmartCommandProcessor.compiled_patterns self).

(** ** Two facts of the Unicode database

    Lower-casing a lower-cased string changes nothing, and lower-casing
    never produces white space at either end of a string that had none
    there (no white-space character is the lower case of anything, and
    none has a lower case of its own). *)
Definition lower_idempotent (U : unicode_db) : Prop :=
  forall s : str, PyStr.lower (PyStr.lower s) = PyStr.lower s.

Definition lower_keeps_stripped (U : unicode_db) : Prop :=
  forall s : str,
    PyStr.strip s = s -> PyStr.strip (PyStr.lower s) = PyStr.lower s.

(** ** The rest of the two files

    The remaining logic of src/jarvis.py and src/jarvis12/J.A.R.V.I.S.py
    that is more than a call into a library: the conversation history,
    the display queue, the web access with its cache, the registry of
    temporary audio files and the cleaning of text before speech.
    Third-party calls (Wikipedia, HTTP, the HTML parser, the file
    system, the clock) are inputs of the functions that make them. *)

(** [datetime]: a naive [datetime] is a count of microseconds from the
    start of year 1, and two of them compare as these counts do. *)
Abbreviation datetime := Z (only parsing).

(** *** [conversation_history] *)
Module Conversation.

(** The dictionary that src/jarvis.py appends:
    [{"speaker", "message", "timestamp", "type"}]. *)
Record entry := {
  speaker : str;
  message : str;
  timestamp : datetime;
  type : str
}.

(** The in-memory part of [EnhancedJarvisAssistant.save_conversation]
    (the insert into the database before it is wrapped in a [try] whose
    handler only logs, so this part runs whatever the insert did):
    append, then drop the oldest entry when there are more than 50. *)
Definition save_conversation (speaker message message_type : str)
    (now : datetime) (conversation_history : list entry) : list entry :=
  let conversation_history :=
    conversation_history
    ++ [ {| speaker := speaker; message := message; timestamp := now;
            type := message_type |} ] in
  if (50 <? length conversation_history)%nat
  then drop 1 conversation_history       (* pop(0) *)
  else conversation_history.

(** The same part of [JarvisAssistant.save_conversation] in
    src/jarvis12: the dictionary is [{"speaker", "message"}] and the
    bound is 20. *)
Definition save_conversation12 (speaker message : str)
    (conversation_history : list (str * str)) : list (str * str) :=
  let conversation_history := conversation_history ++ [(speaker, message)] in
  if (20 <? length conversation_history)%nat
  then drop 1 conversation_history
  else conversation_history.

End Conversation.

(** *** The display queue of src/jarvis.py *)
Module Display.
Import PyStr.

(** The tuple [(priority, timestamp, sender, message, thinking)]. *)
Definition entry : Type := Z * datetime * str * str * bool.

(** [a < b] on these tuples: the first components that differ decide;
    strings compare by code points, [False < True]. *)
Definition entry_lt (a b : entry) : bool :=
  match trichotomyT lexico a b with
  | inleft (left _) => true
  | _ => false
  end.

(** [queue.PriorityQueue], by what can be observed of it: it holds a
    multiset of entries and [get_nowait] takes out a least one
    ([None]: [queue.Empty]). *)
Fixpoint get_nowait (q : list entry) : option (entry * list entry) :=
  match q with
  | [] => None
  | e :: q' =>
      match get_nowait q' with
      | None => Some (e, [])
      | Some (m, r) => if entry_lt m e then Some (m, e :: r) else Some (e, q')
      end
  end.

Definition put (e : entry) (q : list entry) : list entry := e :: q.

(** [add_message(sender, message, priority=3, thinking=False)]. *)
Definition add_message (now : datetime) (sender message : str)
    (priority : Z) (thinking : bool) (message_queue : list entry)
  : list entry :=
  put (priority, now, sender, message, thinking) message_queue.

Definition get_sender_tag (sender : str) (thinking : bool) : string :=
  if thinking then "thinking_sender"
  else if bool_decide (sender = u "JARVIS") then "jarvis_sender"
  else if startswith sender (u "YOU") then
    if contains sender (u "Voice") then "voice_sender" else "user_sender"
  else "system_sender".

Definition get_message_tag (sender : str) : string :=
  if bool_decide (sender = u "JARVIS") then "jarvis_message"
  else if startswith sender (u "YOU") then "user_message"
  else if bool_decide (sender = u "SYSTEM") then "system_message"
  else "system_message".

Definition two_digits (n : Z) : str :=
  [ (48 + Z.to_N (n / 10))%N; (48 + Z.to_N (n mod 10))%N ].

(** [timestamp.strftime("%H:%M:%S")]. *)
Definition strftime_HMS (timestamp : datetime) : str :=
  let second_of_day := ((timestamp / 1000000) mod 86400)%Z in
  two_digits (second_of_day / 3600) ++ u ":"
  ++ two_digits ((second_of_day / 60) mod 60) ++ u ":"
  ++ two_digits (second_of_day mod 60).

(** What one entry adds to the chat area: three insertions of a text
    with a tag. *)
Definition render (e : entry) : list (str * string) :=
  let '(priority, timestamp, sender, message, thinking) := e in
  [ (u "[" ++ strftime_HMS timestamp ++ u "] ", "timestamp"%string);
    (sender ++ u ": ", get_sender_tag sender thinking);
    (message ++ [10; 10]%N, get_message_tag sender) ].

(** The loop of [process_message_queue]: entries are taken out and
    rendered until the queue raises [queue.Empty]; [fuel] bounds the
    number of rounds. *)
Fixpoint process_message_queue (fuel : nat) (message_queue : list entry)
    (chat_area : list (str * string))
  : list entry * list (str * string) :=
  match fuel with
  | O => (message_queue, chat_area)
  | S fuel' =>
      match get_nowait message_queue with
      | None => (message_queue, chat_area)
      | Some (e, message_queue') =>
          process_message_queue fuel' message_queue' (chat_area ++ render e)
      end
  end.

(** The entries in the order in which the loop takes them out. *)
Fixpoint taken_out (fuel : nat) (message_queue : list entry) : list entry :=
  match fuel with
  | O => []
  | S fuel' =>
      match get_nowait message_queue with
      | None => []
      | Some (e, message_queue') => e :: taken_out fuel' message_queue'
      end
  end.

Definition entry_le (a b : entry) : Prop := a = b \/ lexico a b.

End Display.

(** *** src/jarvis.py: [EnhancedWebAccess] *)
Module EnhancedWebAccess.
Import PyStr.

Definition sites : list (string * string) :=
  [ ("google", "https://www.google.com");
    ("youtube", "https://www.youtube.com");
    ("facebook", "https://www.facebook.com");
    ("twitter", "https://www.twitter.com");
    ("x", "https://www.x.com");
    ("github", "https://www.github.com");
    ("wikipedia", "https://www.wikipedia.org");
    ("amazon", "https://www.amazon.com");
    ("netflix", "https://www.netflix.com");
    ("reddit", "https://www.reddit.com");
    ("stackoverflow", "https://stackoverflow.com");
    ("gmail", "https://mail.google.com");
    ("outlook", "https://outlook.live.com");
    ("linkedin", "https://www.linkedin.com") ]%string.

(** [d[key]] when [key in d], for a dictionary literal. *)
Fixpoint dict_get (d : list (string * string)) (key : str) : option str :=
  match d with
  | [] => None
  | (k, v) :: d' =>
      if bool_decide (key = u k) then Some (u v) else dict_get d' key
  end.

(** What the exceptions of the [wikipedia] package and of [requests]
    are to the handlers of [_search_web_uncached]. *)
Inductive wiki_raised :=
| DisambiguationError (options : list str)
| PageError
| wiki_other.

Inductive web_raised := RequestException | other_exception.

(** The outside world of one search: what each third-party call returns
    or raises. *)
Record world := {
  wikipedia_search : str -> option (list str);       (* None: raised *)
  wikipedia_summary : str -> wiki_raised + str;
  requests_utils_quote : str -> str;
  requests_get : str -> web_raised + str;             (* response.text *)
  BeautifulSoup : str -> web_raised + str;
  soup_select : str -> str -> web_raised + list (web_raised + str)
                                                      (* get_text() of each *)
}.

Definition answer_selectors : list string :=
  [ ".hgKElc"; ".Z0LcW"; ".BNeawe.s3v9rd.AP7Wnd"; ".BNeawe.vvjwJb.AP7Wnd" ]%string.

(** The [try] around Wikipedia: an answer, or nothing (no result, or an
    exception that is passed over or logged). *)
Definition wikipedia_answer (w : world) (query : str) : option str :=
  match wikipedia_search w query with
  | Some (first :: _) =>
      match wikipedia_summary w first with
      | inr summary => Some (u "According to Wikipedia: " ++ summary)
      | inl (DisambiguationError options) =>
          match options with
          | option0 :: _ =>
              match wikipedia_summary w option0 with
              | inr summary => Some (u "According to Wikipedia: " ++ summary)
              | inl _ => None
              end
          | [] => None
          end
      | inl _ => None
      end
  | _ => None
  end.

(** The inner loop over the elements of one selector. *)
Fixpoint first_text (elements : list (web_raised + str))
  : web_raised + option str :=
  match elements with
  | [] => inr None
  | inl e :: _ => inl e
  | inr raw :: rest =>
      let text := strip raw in
      if negb (bool_decide (text = [])) && (10 <? length text)%nat
      then inr (Some text)
      else first_text rest
  end.

(** The outer loop over the selectors. *)
Fixpoint first_answer (w : world) (soup : str) (selectors : list string)
  : web_raised + option str :=
  match selectors with
  | [] => inr None
  | selector :: rest =>
      match soup_select w soup (u selector) with
      | inl e => inl e
      | inr elements =>
          match first_text elements with
          | inl e => inl e
          | inr (Some text) => inr (Some text)
          | inr None => first_answer w soup rest
          end
      end
  end.

(** The body of the second [try]. *)
Definition web_answer (w : world) (query : str) : web_raised + option str :=
  let search_url :=
    u "https://www.google.com/search?q=" ++ requests_utils_quote w query in
  match requests_get w search_url with
  | inl e => inl e
  | inr text =>
      match BeautifulSoup w text with
      | inl e => inl e
      | inr soup => first_answer w soup answer_selectors
      end
  end.

Section WithClock.
(** [time.time()] returns a float; [fresh now timestamp] stands for
    [now - timestamp < self.cache_timeout]. *)
Variable time : Type.
Variable fresh : time -> time -> bool.

Record t := {
  available : bool;
  wikipedia_available : bool;
  cache : gmap (list N) (list N * time)
}.

Definition _search_web_uncached (w : world) (query : str) (self : t) : str :=
  if negb (available self) then
    u "Web access is not available. Please install requests and beautifulsoup4."
  else
    match (if wikipedia_available self then wikipedia_answer w query
           else None) with
    | Some answer => answer
    | None =>
        match web_answer w query with
        | inr (Some text) => u "According to web sources: " ++ text
        | inr None =>
            u "I found some information about that topic, but couldn't extract a clear answer."
        | inl RequestException =>
            u "I encountered a network error while searching for information."
        | inl other_exception =>
            u "I encountered an error while searching for information."
        end
    end.

Context {U : unicode_db}.

(** [search_web(query)]; [now_check] is the clock when a cached entry
    is examined, [now_store] the clock when a result is stored. *)
Definition search_web (w : world) (now_check now_store : time) (query : str)
    (self : t) : str * t :=
  let cache_key := lower query in
  match
    match cache self !! cache_key with
    | Some (result, timestamp) =>
        if fresh now_check timestamp then Some result else None
    | None => None
    end
  with
  | Some result => (result, self)
  | None =>
      let result := _search_web_uncached w query self in
      (result,
       {| available := available self;
          wikipedia_available := wikipedia_available self;
          cache := <[cache_key := (result, now_store)]> (cache self) |})
  end.

End WithClock.

Section WithUnicode.
Context {U : unicode_db}.
(** [str.capitalize]. *)
Variable capitalize : str -> str.

(** [open_website(site_name)]: the URL given to [webbrowser.open] and
    the reply. *)
Definition open_website (site_name : str) : str * str :=
  let site_lower := strip (lower site_name) in
  match dict_get sites site_lower with
  | Some url =>
      (url, u "Opening " ++ capitalize site_name ++ u " for you, sir.")
  | None =>
      if startswith site_lower (u "http")
      then (site_lower, u "Opening " ++ site_name ++ u " for you, sir.")
      else (u "https://www." ++ site_lower ++ u ".com",
            u "Attempting to open " ++ site_name ++ u ", sir.")
  end.

(** [EnhancedJarvisAssistant.handle_open_website(site)]: the URL that is
    opened, if one is, and the response given to
    [add_jarvis_response]. *)
Definition handle_open_website (site : option str) : option str * str :=
  match site with
  | Some (c :: s) =>
      let (url, result) := open_website (c :: s) in (Some url, result)
  | _ => (None, u "I'm not sure which website you'd like me to open, sir.")
  end.

End WithUnicode.
End EnhancedWebAccess.

(** *** Temporary audio files *)
Module AudioManager.

(** [list.remove(x)]: the first occurrence goes. *)
Fixpoint remove_first (x : str) (l : list str) : list str :=
  match l with
  | [] => []
  | y :: l' => if bool_decide (y = x) then l' else y :: remove_first x l'
  end.

(** The loop of [AudioManager.cleanup_temp_files] over the copy
    [self.temp_files[:]], on the registry [temp_files] and the set [fs]
    of the paths that exist; [unlink_raises i] tells whether [os.unlink]
    raises in round [i] (the handler logs and goes on). *)
Fixpoint cleanup_loop (unlink_raises : nat -> bool) (i : nat)
    (copy temp_files : list str) (fs : gset (list N))
  : list str * gset (list N) :=
  match copy with
  | [] => (temp_files, fs)
  | file_path :: rest =>
      if bool_decide (file_path ∈ fs) then
        if unlink_raises i
        then cleanup_loop unlink_raises (S i) rest temp_files fs
        else cleanup_loop unlink_raises (S i) rest
               (remove_first file_path temp_files) (fs ∖ {[file_path]})
      else cleanup_loop unlink_raises (S i) rest temp_files fs
  end.

Definition cleanup_temp_files (unlink_raises : nat -> bool)
    (temp_files : list str) (fs : gset (list N))
  : list str * gset (list N) :=
  cleanup_loop unlink_raises 0 temp_files temp_files fs.

(** [temp_audio_file]: [NamedTemporaryFile(delete=False)] creates the
    file [temp_path], which is registered. *)
Definition temp_audio_file (temp_path : str) (temp_files : list str)
    (fs : gset (list N)) : list str * gset (list N) :=
  (temp_files ++ [temp_path], fs ∪ {[temp_path]}).

(** [IntegratedTTS.cleanup_temp_files] of src/jarvis12: every exception
    is passed over, and the registry is emptied at the end. *)
Fixpoint cleanup_loop12 (unlink_raises : nat -> bool) (i : nat)
    (temp_files : list str) (fs : gset (list N)) : gset (list N) :=
  match temp_files with
  | [] => fs
  | file_path :: rest =>
      if bool_decide (file_path ∈ fs) then
        if unlink_raises i
        then cleanup_loop12 unlink_raises (S i) rest fs
        else cleanup_loop12 unlink_raises (S i) rest (fs ∖ {[file_path]})
      else cleanup_loop12 unlink_raises (S i) rest fs
  end.

Definition cleanup_temp_files12 (unlink_raises : nat -> bool)
    (temp_files : list str) (fs : gset (list N))
  : list str * gset (list N) :=
  ([], cleanup_loop12 unlink_raises 0 temp_files fs).

End AudioManager.

(** *** src/jarvis.py: [EnhancedTTS] *)
Module EnhancedTTS.
Import PyStr.

(** The length of the match of [[c]{2,}] at the head of [s]: the whole
    run of [c], when it has at least two characters. *)
Fixpoint run_length (c : cp) (s : str) : nat :=
  match s with
  | x :: t => if x =? c then S (run_length c t) else O
  | [] => O
  end.

Definition match_run (c : cp) (s : str) : option nat :=
  let n := run_length c s in if (2 <=? n)%nat then Some n else None.

(** [re.sub('[c]{2,}', repl, s)]: the matches are found left to right
    and replaced; [skip] counts the characters of the match just
    replaced that are still to be passed over. *)
Fixpoint sub_from (c : cp) (repl : str) (skip : nat) (s : str) : str :=
  match s with
  | [] => []
  | x :: t =>
      match skip with
      | S n => sub_from c repl n t
      | O =>
          match match_run c s with
          | Some n => repl ++ sub_from c repl (n - 1) t
          | None => x :: sub_from c repl 0 t
          end
      end
  end.

Definition re_sub_run (c : cp) (repl : str) (s : str) : str :=
  sub_from c repl 0 s.

Definition replacements : list (string * string) :=
  [ ("sir.", "sir"); ("Mr.", "Mister"); ("Mrs.", "Missus");
    ("Dr.", "Doctor"); ("etc.", "etcetera"); ("e.g.", "for example");
    ("i.e.", "that is"); ("vs.", "versus") ]%string.

Definition _clean_text (text : str) : str :=
  let text := re_sub_run (ch ".") (u ".") text in
  let text := re_sub_run (ch "!") (u "!") text in
  let text := re_sub_run (ch "?") (u "?") text in
  fold_left (fun text '(abbr, full) => replace text (u abbr) (u full))
            replacements text.

Record t := {
  available : bool;
  speaking : bool;
  speech_queue : list str        (* oldest first *)
}.

(** [stop_speaking]: the flag; the call into the mixer is outside. *)
Definition stop_speaking (self : t) : t :=
  {| available := available self; speaking := false;
     speech_queue := speech_queue self |}.

(** [speak(text, interrupt=False)]. *)
Definition speak (text : str) (interrupt : bool) (self : t) : t :=
  if bool_decide (strip text = []) || negb (available self) then self
  else
    let self := if interrupt then stop_speaking self else self in
    {| available := available self; speaking := speaking self;
       speech_queue := speech_queue self ++ [_clean_text text] |}.

End EnhancedTTS.

(** *** Patterns that end in a free-text argument *)
Module ReShape.
Import Re.

(** The end [\s+(.+)] of a pattern, with [g] the number of the group. *)
Definition argument_tail (g : nat) : op :=
  SEQ (MAX_REPEAT CATEGORY_SPACE)
    (SEQ (SUBPATTERN g (SEQ (MAX_REPEAT ANY) EMPTY)) EMPTY).

(** [p] is a sequence of items with groups numbered in [1..n] that ends
    in [\s+(.+)] with group [g]. *)
Fixpoint ends_with_argument (n g : nat) (p : op) : bool :=
  match p with
  | SEQ a b =>
      numbered n a
      && (bool_decide (b = argument_tail g) || ends_with_argument n g b)
  | _ => false
  end.

(** The patterns of [open_website] have one group and end in
    [\s+(.+)]. *)
Definition table_open_shape (self : SmartCommandProcessor.t) : bool :=
  forallb (fun item =>
             if String.eqb item.1 "open_website"
             then forallb (fun p => ends_with_argument 1 1 (code p)
                                    && (groups p =? 1)%nat) item.2
             else true)
          (SmartCommandProcessor.compiled_patterns self).

End ReShape.

(** * Properties *)

(** ** The model on concrete inputs *)
Section Examples.
Context {U : unicode_db}.
Import Re.

Example compile_open :
  compile (u "^open\s+(.+)") true
  = Some {| ignorecase := true; groups := 1;
            code :=
              SEQ (AT AT_BEGINNING)
                (SEQ (LITERAL 111) (SEQ (LITERAL 112) (SEQ (LITERAL 101)
                   (SEQ (LITERAL 110)
                      (SEQ (MAX_REPEAT CATEGORY_SPACE)
                         (SEQ (SUBPATTERN 1 (SEQ (MAX_REPEAT ANY) EMPTY))
                            EMPTY)))))) |}.
Proof. reflexivity. Qed.

Example compile_branches :
  compile (u "\b(a|b(c|d))\b") true
  = Some {| ignorecase := true; groups := 2;
            code :=
              SEQ (AT AT_BOUNDARY)
                (SEQ (SUBPATTERN 1
                        (BRANCH (SEQ (LITERAL 97) EMPTY)
                           (SEQ (LITERAL 98)
                              (SEQ (SUBPATTERN 2
                                      (BRANCH (SEQ (LITERAL 99) EMPTY)
                                         (SEQ (LITERAL 100) EMPTY)))
                                 EMPTY))))
                   (SEQ (AT AT_BOUNDARY) EMPTY)) |}.
Proof. reflexivity. Qed.

Example compile_unbalanced : compile (u "(open") true = None.
Proof. reflexivity. Qed.

(** A group that a match avoids stays [None]. *)
Example groups_optional :
  (p ← compile (u "(a)|(b)") true; m ← search p (u "xb"); Some (match_groups m))
  = Some [None; Some (u "b")].
Proof. vm_compute. reflexivity. Qed.

(** The first alternative that lets the whole pattern match is taken,
    not the longest. *)
Example classify_what_time :
  classify (u "What time is it?")
  = ("time"%string, data_tuple [Some (u "what time")]).
Proof. vm_compute. reflexivity. Qed.

Example classify_timely :
  classify (u "timely") = ("general"%string, data_str (u "timely")).
Proof. vm_compute. reflexivity. Qed.

(** [.] stops at a newline, [\s] runs over it. *)
Example classify_newlines :
  classify (u "search for" ++ [10; 32; 10] ++ u "foo" ++ [10] ++ u "bar")
  = ("search"%string, data_tuple [Some (u "search for"); Some (u "foo")]).
Proof. vm_compute. reflexivity. Qed.

Example classify_search_for_alone :
  classify (u "search for ")
  = ("general"%string, data_str (u "search for")).
Proof. vm_compute. reflexivity. Qed.

Example classify_go_to :
  classify (u "Go  to   Example.org")
  = ("open_website"%string, data_tuple [Some (u "example.org")]).
Proof. vm_compute. reflexivity. Qed.

Example classify_hi_inside_a_word :
  classify (u "this thing") = ("general"%string, data_str (u "this thing")).
Proof. vm_compute. reflexivity. Qed.

Example process_command12_hi_inside_a_word :
  JarvisAssistant.process_command (u "this thing")
  = JarvisAssistant.answer_greeting.
Proof. vm_compute. reflexivity. Qed.

Example process_command12_search :
  JarvisAssistant.process_command (u "Search for look up owls")
  = JarvisAssistant.answer_search (u "owls").
Proof. vm_compute. reflexivity. Qed.

Example extract_search_query_of_text :
  SmartCommandProcessor.value_of
    (SmartCommandProcessor.extract_search_query (u "x") (data_str (u "ab ")))
    command_processor
  = Return [].
Proof. vm_compute. reflexivity. Qed.

Example extract_search_query_of_None_group :
  SmartCommandProcessor.value_of
    (SmartCommandProcessor.extract_search_query (u "x")
       (data_tuple [Some (u "a"); None]))
    command_processor
  = Raise AttributeError.
Proof. vm_compute. reflexivity. Qed.

End Examples.

(** ** Facts about [strip] *)
Section StripFacts.
Import PyStr.

Lemma lstrip_app_keep (l : str) (c : cp) :
  isspace c = false -> lstrip (l ++ [c]) = lstrip l ++ [c].
Proof.
  intros Hc. induction l as [|x l IH]; simpl.
  - by rewrite Hc.
  - destruct (isspace x); [exact IH | done].
Qed.

Lemma lstrip_app_space (l : str) (c : cp) :
  isspace c = true ->
  lstrip (l ++ [c]) = match lstrip l with [] => [] | _ => lstrip l ++ [c] end.
Proof.
  intros Hc. induction l as [|x l IH]; simpl.
  - by rewrite Hc.
  - destruct (isspace x); [exact IH | done].
Qed.

Lemma rstrip_nil : rstrip [] = [].
Proof. reflexivity. Qed.

(** [rstrip] read from the left: a character is dropped exactly when it
    is white space and nothing survives to its right. *)
Lemma rstrip_cons (c : cp) (s : str) :
  rstrip (c :: s) =
  match rstrip s with
  | [] => if isspace c then [] else [c]
  | _ :: _ => c :: rstrip s
  end.
Proof.
  unfold rstrip. rewrite reverse_cons.
  destruct (isspace c) eqn:Hc.
  - rewrite lstrip_app_space by done.
    destruct (lstrip (reverse s)) as [|y l] eqn:E; [done|].
    rewrite reverse_app, reverse_singleton. simpl.
    destruct (reverse (y :: l)) eqn:E'; [|done].
    apply (f_equal reverse) in E'. rewrite reverse_involutive in E'. done.
  - rewrite lstrip_app_keep by done.
    rewrite reverse_app, reverse_singleton. simpl.
    by destruct (reverse (lstrip (reverse s))).
Qed.

Lemma rstrip_idem (s : str) : rstrip (rstrip s) = rstrip s.
Proof.
  induction s as [|c s IH]; [done|].
  rewrite rstrip_cons. destruct (rstrip s) as [|y l] eqn:E.
  - destruct (isspace c) eqn:Hc; [done|].
    by rewrite rstrip_cons, rstrip_nil, Hc.
  - rewrite rstrip_cons, IH. done.
Qed.

Lemma lstrip_head (s : str) :
  match lstrip s with [] => True | c :: _ => isspace c = false end.
Proof.
  induction s as [|c s IH]; simpl; [done|].
  destruct (isspace c) eqn:Hc; [exact IH | exact Hc].
Qed.

Lemma lstrip_fixed (c : cp) (s : str) :
  isspace c = false -> lstrip (c :: s) = c :: s.
Proof. intros Hc. simpl. by rewrite Hc. Qed.

Lemma rstrip_keeps_head (c : cp) (s : str) :
  isspace c = false -> exists w, rstrip (c :: s) = c :: w.
Proof.
  intros Hc. rewrite rstrip_cons, Hc. destruct (rstrip s); eauto.
Qed.

(** What [strip] returns starts with a character that is not white
    space (or is empty). *)
Lemma strip_head (s : str) :
  match strip s with [] => True | c :: _ => isspace c = false end.
Proof.
  unfold strip. pose proof (lstrip_head s) as H.
  destruct (lstrip s) as [|c l]; [done|].
  destruct (rstrip_keeps_head c l H) as [w ->]. done.
Qed.

Lemma strip_idem (s : str) : strip (strip s) = strip s.
Proof.
  unfold strip. pose proof (lstrip_head s) as H.
  destruct (lstrip s) as [|c l]; [done|].
  destruct (rstrip_keeps_head c l H) as [w Hw].
  rewrite Hw, lstrip_fixed, <- Hw by done. apply rstrip_idem.
Qed.

Lemma strip_keeps_head (c : cp) (s : str) :
  isspace c = false -> exists w, strip (c :: s) = c :: w.
Proof.
  intros Hc. unfold strip. rewrite lstrip_fixed by done.
  by apply rstrip_keeps_head.
Qed.

Lemma lstrip_length (s : str) : (length (lstrip s) <= length s)%nat.
Proof.
  induction s as [|c s IH]; simpl; [lia|]. destruct (isspace c); simpl; lia.
Qed.

Lemma rstrip_length (s : str) : (length (rstrip s) <= length s)%nat.
Proof.
  unfold rstrip. rewrite length_reverse.
  etrans; [apply lstrip_length|]. by rewrite length_reverse.
Qed.

Lemma rstrip_snoc_space (s : str) (c : cp) :
  isspace c = true -> rstrip (s ++ [c]) = rstrip s.
Proof.
  intros Hc. unfold rstrip. rewrite reverse_app, reverse_singleton. simpl.
  by rewrite Hc.
Qed.

(** A stripped string does not end in white space. *)
Lemma stripped_no_space_tail (s pre tl : str) :
  strip s = s -> s = pre ++ tl -> tl <> [] ->
  Forall (fun c => isspace c = true) tl -> False.
Proof.
  intros Hs -> Hne Hall.
  destruct (exists_last Hne) as [tl' [z ->]].
  apply Forall_app in Hall as [_ Hz]. rewrite Forall_singleton in Hz.
  assert (Hl : lstrip (pre ++ tl' ++ [z]) = pre ++ tl' ++ [z]).
  { pose proof (lstrip_length (pre ++ tl' ++ [z])).
    pose proof (rstrip_length (lstrip (pre ++ tl' ++ [z]))).
    unfold strip in Hs. apply (f_equal length) in Hs as Hlen.
    destruct (decide (length (lstrip (pre ++ tl' ++ [z]))
                      = length (pre ++ tl' ++ [z]))) as [E|E]; [|lia].
    clear -E. induction (pre ++ tl' ++ [z]) as [|c l IH]; [done|].
    simpl in *. destruct (isspace c).
    2: done.
    pose proof (lstrip_length l). lia. }
  unfold strip in Hs. rewrite Hl in Hs.
  rewrite app_assoc, (rstrip_snoc_space _ _ Hz) in Hs.
  pose proof (rstrip_length (pre ++ tl')) as Hlen.
  rewrite Hs in Hlen. rewrite !length_app in Hlen. simpl in Hlen. lia.
Qed.

End StripFacts.

(** ** Facts about the matcher *)
Section ReFacts.
Context {U : unicode_db}.
Import PyStr Re.

(** A greedy repetition first offers its continuation the end of the
    whole run of matching characters: if the continuation accepts there,
    that is the result. *)
Lemma repeat_more_greedy (k : set_code) (mk : list (option str))
    (kont : cont) (t : str) :
  forall x, exists ws t' x',
    t = ws ++ t' /\
    Forall (fun c => in_set k c = true) ws /\
    match t' with [] => True | c :: _ => in_set k c = false end /\
    forall r, kont {| prev := Some x'; rest := t'; marks := mk |} = Some r ->
              repeat_more k mk x t kont = Some r.
Proof.
  induction t as [|y t IH]; intros x.
  - exists [], [], x. simpl. auto.
  - destruct (in_set k y) eqn:Hy.
    + destruct (IH y) as (ws & t' & x' & -> & Hws & Ht' & Hk).
      exists (y :: ws), t', x'. repeat split; auto.
      intros r Hr. simpl. rewrite Hy, (Hk r Hr). done.
    + exists [], (y :: t), x. simpl. rewrite Hy. auto.
Qed.

(** Whatever a greedy repetition returns was returned by its
    continuation somewhere further on in the text. *)
Lemma repeat_more_inv (k : set_code) (mk : list (option str))
    (kont : cont) (t : str) :
  forall x r, repeat_more k mk x t kont = Some r ->
    exists x' t', t' `suffix_of` t /\
      kont {| prev := Some x'; rest := t'; marks := mk |} = Some r.
Proof.
  induction t as [|y t IH]; intros x r; simpl.
  - intros H. exists x, []. done.
  - destruct (in_set k y).
    + destruct (repeat_more k mk y t kont) as [r'|] eqn:E.
      * intros [= <-]. destruct (IH _ _ E) as (x' & t' & Hs & Hk).
        exists x', t'. split; [by apply suffix_cons_r | done].
      * intros H. exists x, (y :: t). done.
    + intros H. exists x, (y :: t). done.
Qed.

Lemma marks_le_refl m : marks_le m m.
Proof. by split. Qed.

Lemma marks_le_trans m1 m2 m3 :
  marks_le m1 m2 -> marks_le m2 m3 -> marks_le m1 m3.
Proof. intros [? ?] [? ?]. split; [congruence | auto]. Qed.

Lemma marks_le_insert (m : list (option str)) i s :
  marks_le m (<[i := Some s]> m).
Proof.
  split; [by rewrite length_insert|].
  intros j Hj. unfold has_value in *. destruct (decide (i = j)) as [->|Hne].
  - rewrite list_lookup_insert_eq; [by eexists|].
    destruct Hj as [? Hj]. by apply lookup_lt_Some in Hj.
  - by rewrite list_lookup_insert_ne.
Qed.

(** Inversion of a successful match: the result went through the
    continuation at a state further on in the text, with at least the
    groups of before and with every group that [p] cannot avoid. *)
Lemma sre_match_inv (ic : bool) (p : op) :
  forall st kont r,
    numbered (length (marks st)) p = true ->
    sre_match ic p st kont = Some r ->
    exists st', kont st' = Some r /\
      rest st' `suffix_of` rest st /\
      marks_le (marks st) (marks st') /\
      forall g, sets p g = true -> has_value (marks st') (Nat.pred g).
Proof.
  induction p as [|c|k|a|k|g q IH|q1 IH1 q2 IH2|q1 IH1 q2 IH2];
    intros st kont r Hn H; simpl in H.
  - exists st. split_and!; [done | done | apply marks_le_refl | done].
  - destruct (rest st) as [|x t] eqn:E; [done|].
    destruct (literal_eq ic c x); [|done].
    exists (advance x t st). split_and!; [done | | apply marks_le_refl | done].
    simpl. by apply suffix_cons_r.
  - destruct (rest st) as [|x t] eqn:E; [done|].
    destruct (in_set k x); [|done].
    exists (advance x t st). split_and!; [done | | apply marks_le_refl | done].
    simpl. by apply suffix_cons_r.
  - destruct (at_ok a st); [|done].
    exists st. split_and!; [done | done | apply marks_le_refl | done].
  - destruct (rest st) as [|x t] eqn:E; [done|].
    destruct (in_set k x); [|done].
    destruct (repeat_more_inv _ _ _ _ _ _ H) as (x' & t' & Hs & Hk).
    eexists. split_and!; [exact Hk | | apply marks_le_refl | done].
    simpl. by apply suffix_cons_r.
  - cbn [numbered] in Hn. apply andb_prop in Hn as [Hg Hq].
    apply andb_prop in Hg as [Hg1 Hg2].
    apply Nat.leb_le in Hg1, Hg2.
    destruct (IH _ _ _ Hq H) as (st1 & Hk & Hs & Hle & Hsets).
    eexists. split_and!; [exact Hk | exact Hs | |].
    + simpl. eapply marks_le_trans; [exact Hle | apply marks_le_insert].
    + intros g' Hg'. simpl in Hg' |- *. apply orb_prop in Hg' as [Hg'|Hg'].
      * apply Nat.eqb_eq in Hg' as ->. unfold has_value.
        rewrite list_lookup_insert_eq; [by eexists|].
        destruct Hle as [<- _]. lia.
      * apply (marks_le_insert (marks st1) (Nat.pred g)). auto.
  - simpl in Hn. apply andb_prop in Hn as [Hn1 Hn2].
    destruct (sre_match ic q1 st kont) as [r1|] eqn:E.
    + injection H as <-.
      destruct (IH1 _ _ _ Hn1 E) as (st1 & Hk & Hs & Hle & Hsets).
      exists st1. split_and!; [done..|].
      intros g Hg. simpl in Hg. apply andb_prop in Hg as [Hg _]. auto.
    + destruct (IH2 _ _ _ Hn2 H) as (st1 & Hk & Hs & Hle & Hsets).
      exists st1. split_and!; [done..|].
      intros g Hg. simpl in Hg. apply andb_prop in Hg as [_ Hg]. auto.
  - simpl in Hn. apply andb_prop in Hn as [Hn1 Hn2].
    destruct (IH1 _ _ _ Hn1 H) as (st1 & Hk & Hs & Hle & Hsets).
    assert (Hn2' : numbered (length (marks st1)) q2 = true).
    { destruct Hle as [<- _]. done. }
    destruct (IH2 _ _ _ Hn2' Hk) as (st2 & Hk2 & Hs2 & Hle2 & Hsets2).
    exists st2. split_and!; [done | by etrans | by eapply marks_le_trans |].
    intros g Hg. simpl in Hg. apply orb_prop in Hg as [Hg|Hg]; [|auto].
    destruct Hle2 as [_ Hle2]. auto.
Qed.

(** A match found by [search] is a match at some position of the text. *)
Lemma search_from_inv (p : Pattern) (s : str) :
  forall pr m, search_from p pr s = Some m ->
    exists pr' s', s' `suffix_of` s /\ match_at p pr' s' = Some m.
Proof.
  induction s as [|c s IH]; intros pr m; simpl.
  - destruct (match_at p pr []) eqn:E; [|done].
    intros [= <-]. by exists pr, [].
  - destruct (match_at p pr (c :: s)) eqn:E.
    + intros [= <-]. by exists pr, (c :: s).
    + intros H. destruct (IH _ _ H) as (pr' & s' & Hs & Hm).
      exists pr', s'. split; [by apply suffix_cons_r | done].
Qed.

(** When no group of a pattern can be avoided, every group of every
    match has a value. *)
Lemma match_at_groups (p : Pattern) (pr : option cp) (s : str) (m : mstate) :
  groups_mandatory p = true ->
  match_at p pr s = Some m ->
  length (match_groups m) = groups p /\ Forall is_Some (match_groups m).
Proof.
  unfold groups_mandatory, match_at. intros Hp H.
  apply andb_prop in Hp as [Hn Hsets].
  apply sre_match_inv in H as (st' & [= ->] & _ & [Hlen _] & Hs);
    [|simpl; by rewrite length_replicate].
  simpl in Hlen. rewrite length_replicate in Hlen.
  unfold match_groups. split; [done|].
  apply Forall_lookup. intros i x Hi.
  assert (Hlt : (i < groups p)%nat).
  { rewrite Hlen. by apply lookup_lt_Some in Hi. }
  rewrite forallb_forall in Hsets.
  destruct (Hs (S i)) as [v Hv]; [apply Hsets, in_seq; lia|].
  simpl in Hv. rewrite Hi in Hv. injection Hv as ->. by eexists.
Qed.

End ReFacts.

(** ** The patterns with a free-text argument *)
Section QueryShape.
Context {U : unicode_db}.
Import PyStr Re.

Lemma not_space_not_newline (c : cp) : isspace c = false -> in_set ANY c = true.
Proof.
  intros Hc. simpl. destruct (N.eqb_spec c 10) as [->|]; [|done].
  by vm_compute in Hc.
Qed.

(** In a text that does not end in white space, a match of
    [^(head)\s+(.+)] gives its second group a value that starts with a
    character that is not white space: the [\s+] takes the whole run of
    white space, and [.+] succeeds right after it. *)
Lemma query_shape_group (ic : bool) (head : op) (st r : mstate) :
  numbered 2 head = true ->
  length (marks st) = 2%nat ->
  (forall pre tl, rest st = pre ++ tl -> tl <> [] ->
                  Forall (fun c => isspace c = true) tl -> False) ->
  sre_match ic (query_shape head) st Some = Some r ->
  exists g1 c w, marks r = [g1; Some (c :: w)] /\ isspace c = false.
Proof.
  intros Hn Hlen Htail H. unfold query_shape in H.
  cbn [sre_match] in H. destruct (at_ok AT_BEGINNING st); [|done].
  change (sre_match ic head st ?k) with (sre_match ic head st k) in H.
  match type of H with
  | sre_match _ _ _ ?k = _ =>
      assert (H1 : sre_match ic (SUBPATTERN 1 head) st
                     (fun st' => match rest st' with
                                 | x :: t =>
                                     if in_set CATEGORY_SPACE x
                                     then repeat_more CATEGORY_SPACE (marks st') x t
                                            (fun st2 => sre_match ic
                                               (SEQ (SUBPATTERN 2 (SEQ (MAX_REPEAT ANY) EMPTY)) EMPTY)
                                               st2 Some)
                                     else None
                                 | [] => None
                                 end) = Some r) by exact H
  end.
  clear H. apply sre_match_inv in H1 as (st1 & Hk & [pre Hpre] & [Hlen1 _] & _);
    [|rewrite Hlen; cbn [numbered]; by rewrite Hn].
  destruct (rest st1) as [|x t] eqn:Erest; [done|].
  destruct (in_set CATEGORY_SPACE x) eqn:Hx; [|done].
  match type of Hk with
  | repeat_more _ ?mk _ _ ?k = _ =>
      destruct (repeat_more_greedy CATEGORY_SPACE mk k t x)
        as (ws & t' & x' & -> & Hws & Ht' & Hfirst)
  end.
  destruct t' as [|c t''].
  { exfalso. apply (Htail pre (x :: ws)); [|done|].
    - rewrite Hpre. by rewrite app_nil_r.
    - by constructor. }
  simpl in Ht'.
  pose proof (not_space_not_newline c Ht') as Hany.
  match type of Hk with
  | repeat_more _ ?mk _ _ _ = _ => set (mk1 := mk) in *
  end.
  destruct (repeat_more_greedy ANY mk1
              (fun st3 => Some (set_mark 2
                 (consumed {| prev := Some x'; rest := c :: t''; marks := mk1 |} st3)
                 st3)) t'' c)
    as (ws3 & t3 & x3 & Et'' & _ & _ & Hlast).
  specialize (Hlast _ eq_refl).
  assert (Hr : Some r = Some (set_mark 2
                 (consumed {| prev := Some x'; rest := c :: t''; marks := mk1 |}
                           {| prev := Some x3; rest := t3; marks := mk1 |})
                 {| prev := Some x3; rest := t3; marks := mk1 |})).
  { rewrite <- Hk. apply Hfirst. cbn [sre_match rest marks].
    rewrite Hany. exact Hlast. }
  injection Hr as ->.
  assert (Hlen2 : length mk1 = 2%nat).
  { subst mk1. congruence. }
  destruct mk1 as [|g1 [|g2 [|? ?]]]; try done.
  exists g1, c, (take (length ws3) t'').
  split; [|done]. cbn. f_equal. f_equal. f_equal.
  unfold consumed. cbn [rest]. rewrite Et''.
  rewrite length_app.
  replace (S (length ws3 + length t3) - length t3)%nat with (S (length ws3))
    by lia.
  reflexivity.
Qed.

End QueryShape.

(** ** The two loops of [classify_command] *)
Section ClassifyFacts.
Context {U : unicode_db}.
Import PyStr SmartCommandProcessor.

Lemma has_query_shape_inv (p : Re.Pattern) :
  Re.has_query_shape p = true ->
  exists head, Re.code p = Re.query_shape head /\
               Re.numbered 2 head = true /\ Re.groups p = 2%nat.
Proof.
  unfold Re.has_query_shape. intros H.
  destruct (Re.code p) as [| | | | | |? ?|q1 q2]; try done.
  destruct q2 as [| | | | | |? ?|q3 q4]; try done.
  destruct q3 as [| | | | |g head|? ?|? ?]; try done.
  apply andb_prop in H as [H Hg]. apply andb_prop in H as [Hc Hn].
  apply bool_decide_eq_true in Hc. apply Nat.eqb_eq in Hg.
  by exists head.
Qed.

Lemma try_patterns_None (command : string) (ps : list Re.Pattern) (text : str) :
  try_patterns command ps text = None <->
  Forall (fun p => Re.search p text = None) ps.
Proof.
  induction ps as [|p ps IH]; simpl.
  - split; [constructor | done].
  - destruct (Re.search p text) eqn:E.
    + split; [done|]. intros H. apply Forall_cons in H as [H _]. congruence.
    + rewrite IH. split; [by constructor | by intros [_ ?]%Forall_cons].
Qed.

Lemma try_patterns_first (command : string) (ps1 ps2 : list Re.Pattern)
    (p : Re.Pattern) (m : Re.mstate) (text : str) :
  Forall (fun p => Re.search p text = None) ps1 ->
  Re.search p text = Some m ->
  try_patterns command (ps1 ++ p :: ps2) text
  = Some (command, groups_or_None m).
Proof.
  intros H1 Hm. induction H1 as [|q ps1 Hq _ IH]; simpl.
  - by rewrite Hm.
  - by rewrite Hq.
Qed.

Lemma try_patterns_inv (command : string) (ps : list Re.Pattern) (text : str)
    (r : string * data) :
  try_patterns command ps text = Some r ->
  exists ps1 p ps2 m, ps = ps1 ++ p :: ps2 /\
    Forall (fun p => Re.search p text = None) ps1 /\
    Re.search p text = Some m /\ r = (command, groups_or_None m).
Proof.
  induction ps as [|p ps IH]; simpl; [done|].
  destruct (Re.search p text) as [m|] eqn:E.
  - intros [= <-]. by exists [], p, ps, m.
  - intros H. destruct (IH H) as (ps1 & q & ps2 & m & -> & H1 & Hm & ->).
    exists (p :: ps1), q, ps2, m. split_and!; [done | by constructor | done..].
Qed.

Lemma try_patterns_matches (command : string) (ps : list Re.Pattern)
    (text : str) :
  some_matches ps text <-> is_Some (try_patterns command ps text).
Proof.
  unfold some_matches. split.
  - intros H. destruct (try_patterns command ps text) eqn:E; [by eexists|].
    apply try_patterns_None in E. apply Exists_exists in H as (p & Hp & [m Hm]).
    rewrite Forall_forall in E. rewrite (E p Hp) in Hm. done.
  - intros [r H]. apply try_patterns_inv in H
      as (ps1 & p & ps2 & m & -> & _ & Hm & _).
    apply Exists_app. right. constructor. by eexists.
Qed.

Lemma try_commands_None (items : list (string * list Re.Pattern)) (text : str) :
  try_commands items text = None <->
  Forall (fun item => Forall (fun p => Re.search p text = None) item.2) items.
Proof.
  induction items as [|[c ps] items IH]; simpl.
  - split; [constructor | done].
  - destruct (try_patterns c ps text) eqn:E.
    + split; [done|]. intros H. apply Forall_cons in H as [H _].
      simpl in H. apply (try_patterns_None c) in H. congruence.
    + rewrite IH. apply try_patterns_None in E.
      split; [by constructor | by intros [_ ?]%Forall_cons].
Qed.

Lemma try_commands_first (before after : list (string * list Re.Pattern))
    (command : string) (ps : list Re.Pattern) (text : str)
    (r : string * data) :
  Forall (fun item => Forall (fun p => Re.search p text = None) item.2)
         before ->
  try_patterns command ps text = Some r ->
  try_commands (before ++ (command, ps) :: after) text = Some r.
Proof.
  intros H1 Hr. induction H1 as [|[c qs] before Hq _ IH]; simpl.
  - by rewrite Hr.
  - simpl in Hq. apply (try_patterns_None c) in Hq. by rewrite Hq.
Qed.

Lemma try_commands_inv (items : list (string * list Re.Pattern)) (text : str)
    (r : string * data) :
  try_commands items text = Some r ->
  exists before command ps after,
    items = before ++ (command, ps) :: after /\
    Forall (fun item => Forall (fun p => Re.search p text = None) item.2)
           before /\
    try_patterns command ps text = Some r.
Proof.
  induction items as [|[c ps] items IH]; simpl; [done|].
  destruct (try_patterns c ps text) as [r'|] eqn:E.
  - intros [= <-]. by exists [], c, ps, items.
  - intros H. destruct (IH H) as (before & c' & ps' & after & -> & H1 & Hr).
    exists ((c, ps) :: before), c', ps', after.
    split_and!; [done | | done].
    constructor; [|done]. by apply try_patterns_None in E.
Qed.

(** [classify_command] in one equation. *)
Lemma classify_command_value (self : t) (text : str) :
  value_of (classify_command text) self =
  match try_commands (compiled_patterns self) (lower (strip text)) with
  | Some r => r
  | None => ("general"%string, data_str (lower (strip text)))
  end.
Proof.
  unfold value_of, classify_command, bind, get_self, ret.
  by destruct (try_commands _ _).
Qed.

Lemma classify_command_self (self : t) (text : str) :
  self_after (classify_command text) self = self.
Proof.
  unfold self_after, classify_command, bind, get_self, ret.
  by destruct (try_commands _ _).
Qed.

(** The pattern that produced an answer other than the fallback. *)
Lemma classify_command_inv (self : t) (text : str) (intent : string)
    (payload : data) :
  value_of (classify_command text) self = (intent, payload) ->
  (intent = "general"%string /\ payload = data_str (lower (strip text)))
  \/ exists ps p m,
       In (intent, ps) (compiled_patterns self) /\ In p ps /\
       Re.search p (lower (strip text)) = Some m /\
       payload = groups_or_None m.
Proof.
  rewrite classify_command_value.
  destruct (try_commands _ _) as [r|] eqn:E.
  - intros ->. right.
    apply try_commands_inv in E
      as (before & command & ps & after & Etab & _ & Hr).
    apply try_patterns_inv in Hr
      as (ps1 & p & ps2 & m & -> & _ & Hm & [= -> ->]).
    exists (ps1 ++ p :: ps2), p, m. split_and!; [| | exact Hm | reflexivity].
    + rewrite Etab. apply in_elt.
    + apply in_elt.
  - intros [= <- <-]. left. split; reflexivity.
Qed.

Lemma classify_inv (text : str) (intent : string) (payload : data) :
  classify text = (intent, payload) ->
  (intent = "general"%string /\ payload = data_str (lower (strip text)))
  \/ exists ps p m,
       In (intent, ps) (compiled_patterns command_processor) /\ In p ps /\
       Re.search p (lower (strip text)) = Some m /\
       payload = groups_or_None m.
Proof. apply classify_command_inv. Qed.

(** The construction of the processor succeeds. *)
Lemma init_command_processor : init = Some command_processor.
Proof. vm_compute. reflexivity. Qed.

Lemma command_processor_groups_mandatory :
  table_groups_mandatory command_processor = true.
Proof. vm_compute. reflexivity. Qed.

Lemma command_processor_search_shape :
  table_search_shape command_processor = true.
Proof. vm_compute. reflexivity. Qed.

End ClassifyFacts.

(** ** First match wins *)
Section Priority.
Context {U : unicode_db}.
Import PyStr SmartCommandProcessor.

Lemma some_matches_not_all_fail (ps : list Re.Pattern) (text : str) :
  some_matches ps text ->
  Forall (fun p => Re.search p text = None) ps -> False.
Proof.
  intros H Hall. apply Exists_exists in H as (p & Hp & [m Hm]).
  rewrite Forall_forall in Hall. rewrite (Hall p Hp) in Hm. done.
Qed.

(** The command that answers is the first one of the table, in
    dictionary order, with a pattern found in the text. *)
Lemma classify_command_first_command (self : t) (text : str) (i : nat)
    (A : string) (psA : list Re.Pattern) :
  compiled_patterns self !! i = Some (A, psA) ->
  some_matches psA (lower (strip text)) ->
  exists k C psC, (k <= i)%nat /\
    compiled_patterns self !! k = Some (C, psC) /\
    some_matches psC (lower (strip text)) /\
    (value_of (classify_command text) self).1 = C.
Proof.
  intros Hi HA. rewrite classify_command_value.
  destruct (try_commands _ _) as [r|] eqn:E.
  - apply try_commands_inv in E
      as (before & command & ps & after & Etab & Hbefore & Hr).
    exists (length before), command, ps.
    assert (Hk : compiled_patterns self !! length before = Some (command, ps)).
    { rewrite Etab. by apply list_lookup_middle. }
    split_and!; [| done | |].
    + destruct (decide (length before <= i)%nat) as [|Hgt]; [done|].
      exfalso. rewrite Etab, lookup_app_l in Hi by lia.
      rewrite Forall_lookup in Hbefore. specialize (Hbefore _ _ Hi).
      by eapply some_matches_not_all_fail.
    + apply (try_patterns_matches command). by eexists.
    + apply try_patterns_inv in Hr as (? & ? & ? & ? & _ & _ & _ & ->). done.
  - exfalso. apply try_commands_None in E.
    rewrite Forall_lookup in E. specialize (E _ _ Hi).
    by eapply some_matches_not_all_fail.
Qed.

End Priority.

(** C1. [classify_command] goes through the intents in the order of the
    table and through the patterns of an intent in the order of its list,
    and the first pattern found in the text decides: (1) a pattern
    preceded only by patterns that are not found gives the result;
    (2) when patterns of two intents are found, the later-declared intent
    is not returned, and the earlier-declared one is returned whenever no
    intent declared before it matches (so always when the two are the
    only ones that match); (3) "what is the time" is
    matched by patterns of [time] and of [search], [time] is declared
    first, and the result is [time]. *)
Theorem classify_command_first_match_wins {U : unicode_db} :
  (forall (self : SmartCommandProcessor.t) (text : str)
          (before after : list (string * list Re.Pattern)) (command : string)
          (ps1 ps2 : list Re.Pattern) (pattern : Re.Pattern) (m : Re.mstate),
      SmartCommandProcessor.compiled_patterns self
        = before ++ (command, ps1 ++ pattern :: ps2) :: after ->
      Forall (fun item =>
                Forall (fun p => Re.search p (PyStr.lower (PyStr.strip text))
                                 = None) item.2) before ->
      Forall (fun p => Re.search p (PyStr.lower (PyStr.strip text)) = None)
             ps1 ->
      Re.search pattern (PyStr.lower (PyStr.strip text)) = Some m ->
      SmartCommandProcessor.value_of
        (SmartCommandProcessor.classify_command text) self
      = (command, groups_or_None m))
  /\
  (forall (self : SmartCommandProcessor.t) (text : str) (i j : nat)
          (A B : string) (psA psB : list Re.Pattern),
      NoDup (fst <$> SmartCommandProcessor.compiled_patterns self) ->
      SmartCommandProcessor.compiled_patterns self !! i = Some (A, psA) ->
      SmartCommandProcessor.compiled_patterns self !! j = Some (B, psB) ->
      (i < j)%nat ->
      some_matches psA (PyStr.lower (PyStr.strip text)) ->
      some_matches psB (PyStr.lower (PyStr.strip text)) ->
      (SmartCommandProcessor.value_of
         (SmartCommandProcessor.classify_command text) self).1 <> B
      /\
      ((forall k C psC, (k < i)%nat ->
          SmartCommandProcessor.compiled_patterns self !! k = Some (C, psC) ->
          ~ some_matches psC (PyStr.lower (PyStr.strip text))) ->
       (SmartCommandProcessor.value_of
          (SmartCommandProcessor.classify_command text) self).1 = A))
  /\
  (exists psT psS,
      SmartCommandProcessor.compiled_patterns command_processor !! 0%nat
        = Some ("time"%string, psT) /\
      SmartCommandProcessor.compiled_patterns command_processor !! 3%nat
        = Some ("search"%string, psS) /\
      some_matches psT (PyStr.lower (PyStr.strip (u "what is the time"))) /\
      some_matches psS (PyStr.lower (PyStr.strip (u "what is the time"))))
  /\ classify (u "what is the time") = ("time"%string, data_None).
Proof.
  split_and!.
  - intros self text before after command ps1 ps2 pattern m Etab Hb H1 Hm.
    rewrite classify_command_value, Etab.
    erewrite try_commands_first; [done | done |].
    by apply try_patterns_first.
  - intros self text i j A B psA psB Hnd Hi Hj Hij HA HB.
    destruct (classify_command_first_command self text i A psA Hi HA)
      as (k & C & psC & Hk & Hlk & HC & ->).
    assert (Hkey : forall n X ps,
               SmartCommandProcessor.compiled_patterns self !! n = Some (X, ps) ->
               (fst <$> SmartCommandProcessor.compiled_patterns self) !! n
               = Some X).
    { intros n X ps Hn. by rewrite list_lookup_fmap, Hn. }
    split.
    + intros ->. pose proof (NoDup_lookup _ _ _ _ Hnd (Hkey _ _ _ Hlk)
                               (Hkey _ _ _ Hj)). lia.
    + intros Hnone. destruct (decide (k = i)) as [->|Hne].
      * rewrite Hi in Hlk. by injection Hlk as -> _.
      * exfalso. apply (Hnone k C psC); [lia | done | done].
  - do 2 eexists. split_and!.
    + vm_compute. reflexivity.
    + vm_compute. reflexivity.
    + apply Exists_cons_tl, Exists_cons_hd. vm_compute. by eexists.
    + apply Exists_cons_tl, Exists_cons_hd. vm_compute. by eexists.
  - vm_compute. reflexivity.
Qed.

Lemma classify_command_first_match_wins_witness :
  (exists m, @classify caseless_db (u "what is the time")
             = ("time"%string, groups_or_None m))
  /\ (@classify caseless_db (u "what is the time")).1 <> "search"%string
  /\ (@classify caseless_db (u "what is the time")).1 = "time"%string.
Proof.
  destruct (@classify_command_first_match_wins caseless_db)
    as (H1 & H2 & _). split.
  - eexists. unfold classify.
    eapply (H1 command_processor (u "what is the time") [] _ "time"%string
               [_] []).
    + lazy. reflexivity.
    + constructor.
    + constructor; [vm_compute; reflexivity | constructor].
    + vm_compute. reflexivity.
  - unfold classify.
    edestruct (H2 command_processor (u "what is the time") 0%nat 3%nat
                 "time"%string "search"%string) as [Hne Heq].
    + apply (bool_decide_unpack _). vm_compute. exact I.
    + lazy. reflexivity.
    + lazy. reflexivity.
    + lia.
    + apply Exists_cons_tl, Exists_cons_hd. vm_compute. by eexists.
    + apply Exists_cons_tl, Exists_cons_hd. vm_compute. by eexists.
    + split; [exact Hne | apply Heq; intros; lia].
Defined.

(** C2. [classify_command] is total: the processor is constructed, and on
    every string (empty, non-ASCII or other) the call returns one pair
    of an intent and a payload, raises nothing and leaves the processor
    as it was; the intent is [general] or a key of the table. *)
Theorem classify_command_total {U : unicode_db} :
  SmartCommandProcessor.init = Some command_processor
  /\
  forall (self : SmartCommandProcessor.t) (text : str),
    exists (intent : string) (payload : data),
      SmartCommandProcessor.classify_command text self
      = ((intent, payload), self)
      /\ (intent = "general"%string
          \/ intent ∈ (fst <$> SmartCommandProcessor.compiled_patterns self)).
Proof.
  split; [apply init_command_processor|].
  intros self text.
  pose proof (classify_command_value self text) as Hv.
  pose proof (classify_command_self self text) as Hs.
  unfold SmartCommandProcessor.value_of, SmartCommandProcessor.self_after in *.
  destruct (SmartCommandProcessor.classify_command text self)
    as [[intent payload] self'].
  simpl in *. subst self'. exists intent, payload. split; [done|].
  destruct (SmartCommandProcessor.try_commands _ _) as [r|] eqn:E.
  - right. subst r.
    apply try_commands_inv in E
      as (before & command & ps & after & -> & _ & Hr).
    apply try_patterns_inv in Hr as (? & ? & ? & ? & _ & _ & _ & [= -> _]).
    rewrite fmap_app, fmap_cons. simpl.
    apply elem_of_app. right. apply list_elem_of_here.
  - left. by injection Hv.
Qed.

(** C3. When no pattern of the table is found in the text,
    [classify_command] returns [general] with the trimmed, lower-cased
    text as payload; so it does for "xyzzy plugh quux" (also when typed
    with capitals and blanks around it), and the empty string gives
    [general] with the empty string. *)
Theorem classify_command_fallback {U : unicode_db} :
  (forall (self : SmartCommandProcessor.t) (text : str),
      Forall (fun item =>
                Forall (fun p => Re.search p (PyStr.lower (PyStr.strip text))
                                 = None) item.2)
             (SmartCommandProcessor.compiled_patterns self) ->
      SmartCommandProcessor.value_of
        (SmartCommandProcessor.classify_command text) self
      = ("general"%string, data_str (PyStr.lower (PyStr.strip text))))
  /\ classify (u "xyzzy plugh quux")
     = ("general"%string, data_str (u "xyzzy plugh quux"))
  /\ classify (u "  XYZZY Plugh quux ")
     = ("general"%string, data_str (u "xyzzy plugh quux"))
  /\ classify [] = ("general"%string, data_str []).
Proof.
  split_and!.
  - intros self text H. rewrite classify_command_value.
    apply try_commands_None in H. by rewrite H.
  - vm_compute. reflexivity.
  - vm_compute. reflexivity.
  - vm_compute. reflexivity.
Qed.

Lemma classify_command_fallback_witness :
  @classify caseless_db (u "xyzzy plugh quux")
  = ("general"%string, data_str (u "xyzzy plugh quux")).
Proof.
  destruct (@classify_command_fallback caseless_db) as (H & _).
  unfold classify.
  rewrite (H command_processor (u "xyzzy plugh quux")).
  - vm_compute. reflexivity.
  - apply try_commands_None. vm_compute. reflexivity.
Defined.

(** ** [extract_search_query] *)
Section Extract.
Context {U : unicode_db}.
Import PyStr SmartCommandProcessor.

Lemma remove_prefix_first (text text_lower : str) (l1 l2 : list string)
    (prefix : string) :
  Forall (fun p => startswith text_lower (u p) = false) l1 ->
  startswith text_lower (u prefix) = true ->
  remove_prefix text text_lower (l1 ++ prefix :: l2)
  = strip (drop (length (u prefix)) text).
Proof.
  intros H1 Hp. induction H1 as [|q l1 Hq _ IH]; simpl.
  - by rewrite Hp.
  - by rewrite Hq.
Qed.

Lemma extract_search_query_last_group (self : t) (text : str)
    (l : list (option str)) (g : str) :
  last l = Some (Some g) ->
  value_of (extract_search_query text (data_tuple l)) self = Return (strip g).
Proof.
  intros Hl. unfold value_of, extract_search_query.
  destruct l as [|x l]; [done|]. cbn [truthy]. by rewrite Hl.
Qed.

Lemma remove_prefix_none (text text_lower : str) (l : list string) :
  Forall (fun p => startswith text_lower (u p) = false) l ->
  remove_prefix text text_lower l = text.
Proof.
  intros H. induction H as [|q l Hq _ IH]; simpl; [done|]. by rewrite Hq.
Qed.

End Extract.

(** ** The groups of a match *)
Section Groups.
Context {U : unicode_db}.
Import PyStr.

(** Matching never changes how many groups there are: the state that
    reaches the continuation has as many as the state it started from. *)
Lemma sre_match_groups (ic : bool) (p : Re.op) :
  forall st kont r,
    Re.sre_match ic p st kont = Some r ->
    exists st', kont st' = Some r /\
      length (Re.marks st') = length (Re.marks st).
Proof.
  induction p as [|c|k|a|k|g q IH|q1 IH1 q2 IH2|q1 IH1 q2 IH2];
    intros st kont r H; simpl in H.
  - by exists st.
  - destruct (Re.rest st) as [|x t] eqn:E; [done|].
    destruct (Re.literal_eq ic c x); [|done]. by exists (Re.advance x t st).
  - destruct (Re.rest st) as [|x t] eqn:E; [done|].
    destruct (Re.in_set k x); [|done]. by exists (Re.advance x t st).
  - destruct (Re.at_ok a st); [|done]. by exists st.
  - destruct (Re.rest st) as [|x t] eqn:E; [done|].
    destruct (Re.in_set k x); [|done].
    destruct (repeat_more_inv _ _ _ _ _ _ H) as (x' & t' & _ & Hk).
    eexists. split; [exact Hk | reflexivity].
  - destruct (IH _ _ _ H) as (st1 & Hk & Hlen).
    eexists. split; [exact Hk|]. simpl. by rewrite length_insert.
  - destruct (Re.sre_match ic q1 st kont) as [r1|] eqn:E.
    + injection H as <-. eauto.
    + eauto.
  - destruct (IH1 _ _ _ H) as (st1 & Hk & Hlen1).
    destruct (IH2 _ _ _ Hk) as (st2 & Hk2 & Hlen2).
    exists st2. split; [done | congruence].
Qed.

(** [Match.groups()] has one element for each group of the pattern,
    whether the group took part in the match or not. *)
Lemma search_groups (p : Re.Pattern) (s : str) (m : Re.mstate) :
  Re.search p s = Some m -> length (Re.match_groups m) = Re.groups p.
Proof.
  intros H. apply search_from_inv in H as (pr & s' & _ & H).
  unfold Re.match_at in H.
  apply sre_match_groups in H as (st' & [= ->] & Hlen).
  unfold Re.match_groups. rewrite Hlen. simpl. apply length_replicate.
Qed.

(** [groups if groups else None] by the number of groups. *)
Lemma groups_or_None_tuple (m : Re.mstate) :
  (0 < length (Re.match_groups m))%nat ->
  groups_or_None m = data_tuple (Re.match_groups m).
Proof.
  intros H. unfold groups_or_None. rewrite bool_decide_eq_false_2; [done|].
  intros E. rewrite E in H. simpl in H. lia.
Qed.

Lemma groups_or_None_None (m : Re.mstate) :
  length (Re.match_groups m) = 0%nat -> groups_or_None m = data_None.
Proof.
  intros H. unfold groups_or_None. rewrite bool_decide_eq_true_2; [done|].
  by apply length_zero_iff_nil.
Qed.

End Groups.

(** C4. When the pattern that wins has groups, the payload is the tuple
    of what the groups of its match captured, in order, and
    [extract_search_query] returns the last group trimmed.  (1) For the
    first pattern of the table found in the text (every pattern before
    it, in the intents before and in its own list, is not found), with
    match [m]: [Match.groups()] has one element for each group of the
    pattern; when the pattern has groups the result is the intent with
    the tuple [Match.groups()] as payload, and [extract_search_query] on
    that payload returns the last group trimmed; when it has none the
    payload is [None].  (2) Conversely a tuple payload is
    [Match.groups()] of a pattern of the returned intent.
    (3) [extract_search_query] on a tuple returns its last element
    trimmed.  (4) "search for the eiffel tower" is a [search] whose
    query is "the eiffel tower", and "open github" is an [open_website]
    whose payload yields "github" (through [extract_search_query] and
    through the dispatcher's [extracted_data[0]] alike). *)
Theorem classify_command_capture_extraction {U : unicode_db} :
  (forall (self : SmartCommandProcessor.t) (text : str)
          (before after : list (string * list Re.Pattern)) (command : string)
          (ps1 ps2 : list Re.Pattern) (pattern : Re.Pattern) (m : Re.mstate),
      SmartCommandProcessor.compiled_patterns self
        = before ++ (command, ps1 ++ pattern :: ps2) :: after ->
      Forall (fun item =>
                Forall (fun p => Re.search p (PyStr.lower (PyStr.strip text))
                                 = None) item.2) before ->
      Forall (fun p => Re.search p (PyStr.lower (PyStr.strip text)) = None)
             ps1 ->
      Re.search pattern (PyStr.lower (PyStr.strip text)) = Some m ->
      length (Re.match_groups m) = Re.groups pattern
      /\
      ((0 < Re.groups pattern)%nat ->
       SmartCommandProcessor.value_of
         (SmartCommandProcessor.classify_command text) self
       = (command, data_tuple (Re.match_groups m))
       /\
       forall g : str,
         last (Re.match_groups m) = Some (Some g) ->
         SmartCommandProcessor.value_of
           (SmartCommandProcessor.extract_search_query text
              (SmartCommandProcessor.value_of
                 (SmartCommandProcessor.classify_command text) self).2) self
         = Return (PyStr.strip g))
      /\
      (Re.groups pattern = 0%nat ->
       SmartCommandProcessor.value_of
         (SmartCommandProcessor.classify_command text) self
       = (command, data_None)))
  /\
  (forall (self : SmartCommandProcessor.t) (text : str) (intent : string)
          (l : list (option str)),
      SmartCommandProcessor.value_of
        (SmartCommandProcessor.classify_command text) self
      = (intent, data_tuple l) ->
      exists ps p m,
        In (intent, ps) (SmartCommandProcessor.compiled_patterns self)
        /\ In p ps
        /\ Re.search p (PyStr.lower (PyStr.strip text)) = Some m
        /\ l = Re.match_groups m /\ l <> [])
  /\
  (forall (self : SmartCommandProcessor.t) (text : str)
          (l : list (option str)) (g : str),
      last l = Some (Some g) ->
      SmartCommandProcessor.value_of
        (SmartCommandProcessor.extract_search_query text (data_tuple l)) self
      = Return (PyStr.strip g))
  /\ classify (u "search for the eiffel tower")
     = ("search"%string,
        data_tuple [Some (u "search for"); Some (u "the eiffel tower")])
  /\ SmartCommandProcessor.value_of
       (SmartCommandProcessor.extract_search_query
          (u "search for the eiffel tower")
          (classify (u "search for the eiffel tower")).2) command_processor
     = Return (u "the eiffel tower")
  /\ classify (u "open github")
     = ("open_website"%string, data_tuple [Some (u "github")])
  /\ SmartCommandProcessor.value_of
       (SmartCommandProcessor.extract_search_query
          (u "open github") (classify (u "open github")).2) command_processor
     = Return (u "github")
  /\ SmartCommandProcessor.value_of
       (EnhancedJarvisAssistant.process_command (u "open github"))
       command_processor
     = Return (EnhancedJarvisAssistant.handle_open_website (Some (u "github")))
  /\ SmartCommandProcessor.value_of
       (EnhancedJarvisAssistant.process_command
          (u "search for the eiffel tower")) command_processor
     = Return (EnhancedJarvisAssistant.handle_search_command
                 (u "the eiffel tower")).
Proof.
  split_and!; [| | |vm_compute; reflexivity..].
  - intros self text before after command ps1 ps2 pattern m Etab Hb H1 Hm.
    pose proof (search_groups _ _ _ Hm) as Hlen.
    assert (Hv : SmartCommandProcessor.value_of
                   (SmartCommandProcessor.classify_command text) self
                 = (command, groups_or_None m)).
    { rewrite classify_command_value, Etab.
      erewrite try_commands_first; [reflexivity | exact Hb |].
      by apply try_patterns_first. }
    split_and!; [exact Hlen | |].
    + intros Hpos. rewrite Hv, groups_or_None_tuple by lia.
      split; [reflexivity|].
      intros g Hg. by apply extract_search_query_last_group.
    + intros Hzero. rewrite Hv, groups_or_None_None by lia. reflexivity.
  - intros self text intent l H.
    apply classify_command_inv in H
      as [[_ ?]|(ps & p & m & Hps & Hp & Hm & Hl)]; [discriminate|].
    exists ps, p, m. unfold groups_or_None in Hl.
    destruct (decide (Re.match_groups m = [])) as [E|E].
    + rewrite bool_decide_eq_true_2 in Hl by exact E. discriminate.
    + rewrite bool_decide_eq_false_2 in Hl by exact E.
      injection Hl as ->. auto.
  - intros self text l g Hl. by apply extract_search_query_last_group.
Qed.

Lemma classify_command_capture_extraction_witness :
  (@classify caseless_db (u "What time is it?")
   = ("time"%string, data_tuple [Some (u "what time")])
   /\ SmartCommandProcessor.value_of
        (@SmartCommandProcessor.extract_search_query caseless_db
           (u "What time is it?")
           (@classify caseless_db (u "What time is it?")).2)
        command_processor
      = Return (u "what time"))
  /\
  SmartCommandProcessor.value_of
    (@SmartCommandProcessor.extract_search_query caseless_db
       (u "search for the eiffel tower")
       (data_tuple [Some (u "search for"); Some (u " the eiffel tower ")]))
    command_processor
  = Return (u "the eiffel tower")
  /\
  exists ps p m,
    In ("open_website"%string, ps)
       (SmartCommandProcessor.compiled_patterns command_processor)
    /\ In p ps
    /\ @Re.search caseless_db p
         (@PyStr.lower caseless_db (PyStr.strip (u "open github"))) = Some m
    /\ [Some (u "github")] = Re.match_groups m
    /\ [Some (u "github")] <> [].
Proof.
  destruct (@classify_command_capture_extraction caseless_db)
    as (H0 & H1 & H2 & _).
  split; [|split].
  - unfold classify.
    epose proof (H0 command_processor (u "What time is it?") [] _
                    "time"%string [] [_] _ _) as H.
    destruct H as (_ & Hpos & _).
    + lazy. reflexivity.
    + constructor.
    + constructor.
    + vm_compute. reflexivity.
    + destruct (Hpos ltac:(simpl; lia)) as [Hv Hq].
      split; [exact Hv|].
      rewrite (Hq (u "what time")); [vm_compute; reflexivity | reflexivity].
  - rewrite (H2 command_processor _ _ (u " the eiffel tower ")).
    + vm_compute. reflexivity.
    + vm_compute. reflexivity.
  - apply (H1 command_processor (u "open github")).
    vm_compute. reflexivity.
Defined.

(** C5. Without capture groups ([None], or an empty tuple)
    [extract_search_query] tries the prefixes of its list in the order of
    the list against the lower-cased text: the first that the text
    starts with is cut off and the remainder is returned trimmed; when
    the text starts with none of them it is returned unchanged;
    "tell me about black holes" gives "black holes". *)
Theorem extract_search_query_prefix_fallback {U : unicode_db} :
  (forall (self : SmartCommandProcessor.t) (text : str) (groups : data)
          (l1 l2 : list string) (prefix : string),
      truthy groups = false ->
      SmartCommandProcessor.prefixes = l1 ++ prefix :: l2 ->
      Forall (fun p => PyStr.startswith (PyStr.lower text) (u p) = false) l1 ->
      PyStr.startswith (PyStr.lower text) (u prefix) = true ->
      SmartCommandProcessor.value_of
        (SmartCommandProcessor.extract_search_query text groups) self
      = Return (PyStr.strip (drop (length (u prefix)) text)))
  /\
  (forall (self : SmartCommandProcessor.t) (text : str) (groups : data),
      truthy groups = false ->
      Forall (fun p => PyStr.startswith (PyStr.lower text) (u p) = false)
             SmartCommandProcessor.prefixes ->
      SmartCommandProcessor.value_of
        (SmartCommandProcessor.extract_search_query text groups) self
      = Return text)
  /\ SmartCommandProcessor.value_of
       (SmartCommandProcessor.extract_search_query
          (u "tell me about black holes") data_None) command_processor
     = Return (u "black holes")
  /\ SmartCommandProcessor.value_of
       (SmartCommandProcessor.extract_search_query
          (u "black holes") data_None) command_processor
     = Return (u "black holes").
Proof.
  split_and!; [| |vm_compute; reflexivity..].
  - intros self text groups l1 l2 prefix Hg El H1 Hp.
    unfold SmartCommandProcessor.value_of,
      SmartCommandProcessor.extract_search_query.
    rewrite Hg, El. unfold SmartCommandProcessor.ret. cbn [fst].
    f_equal. by apply remove_prefix_first.
  - intros self text groups Hg H.
    unfold SmartCommandProcessor.value_of,
      SmartCommandProcessor.extract_search_query.
    rewrite Hg. unfold SmartCommandProcessor.ret. cbn [fst].
    f_equal. by apply remove_prefix_none.
Qed.

Lemma extract_search_query_prefix_fallback_witness :
  SmartCommandProcessor.value_of
    (@SmartCommandProcessor.extract_search_query caseless_db
       (u "Tell me about black holes") data_None) command_processor
  = Return (u "black holes")
  /\
  SmartCommandProcessor.value_of
    (@SmartCommandProcessor.extract_search_query caseless_db
       (u "black holes") (data_tuple [])) command_processor
  = Return (u "black holes").
Proof.
  destruct (@extract_search_query_prefix_fallback caseless_db)
    as (H1 & H2 & _). split.
  - rewrite (H1 command_processor (u "Tell me about black holes") data_None
               ["search for"; "look up"; "find information about"]%string
               ["what is"; "who is"; "where is"; "when is"; "how is";
                "define"; "explain"; "describe"]%string
               "tell me about"%string).
    + vm_compute. reflexivity.
    + reflexivity.
    + reflexivity.
    + repeat constructor.
    + vm_compute. reflexivity.
  - rewrite (H2 command_processor (u "black holes") (data_tuple [])).
    + reflexivity.
    + reflexivity.
    + repeat constructor.
Defined.

(** ** The database without case beyond ASCII satisfies the two facts *)
Section Caseless.
Import PyStr.

Lemma caseless_lower (s : str) : @lower caseless_db s = map ascii_tolower s.
Proof. unfold lower. simpl. by destruct (forallb is_ascii s). Qed.

Lemma ascii_tolower_idem (c : cp) :
  ascii_tolower (ascii_tolower c) = ascii_tolower c.
Proof.
  unfold ascii_tolower.
  destruct ((65 <=? c) && (c <=? 90)) eqn:E; [|by rewrite E].
  apply andb_prop in E as [H1 H2]. apply N.leb_le in H1, H2.
  replace (c + 32 <=? 90) with false by (symmetry; apply N.leb_gt; lia).
  by rewrite andb_false_r.
Qed.

Lemma ascii_whitespace_above (c : cp) : 33 <= c -> ascii_whitespace c = false.
Proof.
  intros H. unfold ascii_whitespace.
  replace (c <=? 13) with false by (symmetry; apply N.leb_gt; lia).
  replace (c <=? 32) with false by (symmetry; apply N.leb_gt; lia).
  by rewrite !andb_false_r.
Qed.

Lemma isspace_tolower (c : cp) : isspace (ascii_tolower c) = isspace c.
Proof.
  unfold ascii_tolower.
  destruct ((65 <=? c) && (c <=? 90)) eqn:E; [|done].
  apply andb_prop in E as [H1 H2]. apply N.leb_le in H1, H2.
  unfold isspace, is_ascii.
  replace (c + 32 <? 128) with true by (symmetry; apply N.ltb_lt; lia).
  replace (c <? 128) with true by (symmetry; apply N.ltb_lt; lia).
  rewrite !ascii_whitespace_above by lia. done.
Qed.

Lemma lstrip_map_tolower (s : str) :
  lstrip (map ascii_tolower s) = map ascii_tolower (lstrip s).
Proof.
  induction s as [|c s IH]; simpl; [done|].
  rewrite isspace_tolower. by destruct (isspace c).
Qed.

Lemma rstrip_map_tolower (s : str) :
  rstrip (map ascii_tolower s) = map ascii_tolower (rstrip s).
Proof.
  induction s as [|c s IH]; [done|].
  cbn [map]. rewrite !rstrip_cons, IH, isspace_tolower.
  destruct (rstrip s); simpl; [by destruct (isspace c) | done].
Qed.

Lemma caseless_lower_idempotent : lower_idempotent caseless_db.
Proof.
  intros s. rewrite !caseless_lower, map_map.
  apply map_ext. intros c. apply ascii_tolower_idem.
Qed.

Lemma caseless_lower_keeps_stripped : lower_keeps_stripped caseless_db.
Proof.
  intros s Hs. rewrite caseless_lower. unfold strip in *.
  by rewrite lstrip_map_tolower, rstrip_map_tolower, Hs.
Qed.

End Caseless.

(** ** The argument of a search *)
Section SearchQuery.
Context {U : unicode_db}.
Import PyStr SmartCommandProcessor.

Lemma normalized_stripped (text : str) :
  lower_keeps_stripped U -> strip (lower (strip text)) = lower (strip text).
Proof. intros H. apply H, strip_idem. Qed.

(** A match of a pattern of shape [^(head)\s+(.+)] anywhere in a text
    that does not end in white space. *)
Lemma search_query_shape (p : Re.Pattern) (text : str) (m : Re.mstate) :
  strip text = text ->
  Re.has_query_shape p = true ->
  Re.search p text = Some m ->
  exists g1 c w, Re.match_groups m = [g1; Some (c :: w)] /\ isspace c = false.
Proof.
  intros Hst Hp Hm.
  apply has_query_shape_inv in Hp as (head & Hcode & Hn & Hg).
  apply search_from_inv in Hm as (pr & s' & [k Hk] & Hm).
  unfold Re.match_at in Hm. rewrite Hcode, Hg in Hm.
  eapply query_shape_group in Hm; [exact Hm | done | done |].
  simpl. intros pre tl -> Hne Hall.
  eapply (stripped_no_space_tail text (k ++ pre) tl); [done | | done | done].
  by rewrite Hk, app_assoc.
Qed.

End SearchQuery.

(** C6. For every string that [classify_command] answers with intent
    [search], [extract_search_query] on the string and the returned
    payload yields a query that is not empty (and raises nothing), given
    that lower-casing puts no white space at the end of a string. *)
Theorem search_query_never_empty {U : unicode_db} :
  lower_keeps_stripped U ->
  forall (text : str) (payload : data),
    classify text = ("search"%string, payload) ->
    exists query : str,
      SmartCommandProcessor.value_of
        (SmartCommandProcessor.extract_search_query text payload)
        command_processor
      = Return query
      /\ query <> [].
Proof.
  intros HU text payload H.
  apply classify_inv in H as [[? _]|(ps & p & m & Hps & Hp & Hm & ->)];
    [discriminate|].
  pose proof command_processor_search_shape as Hshape.
  unfold table_search_shape in Hshape. rewrite forallb_forall in Hshape.
  specialize (Hshape _ Hps). cbn [fst snd] in Hshape.
  change (String.eqb "search" "search") with true in Hshape. cbn iota in Hshape.
  rewrite forallb_forall in Hshape. specialize (Hshape _ Hp).
  destruct (search_query_shape p _ m (normalized_stripped text HU) Hshape Hm)
    as (g1 & c & w & Hgroups & Hc).
  destruct (strip_keeps_head c w Hc) as [w' Hw'].
  exists (c :: w'). split; [|discriminate].
  unfold groups_or_None.
  rewrite Hgroups, bool_decide_eq_false_2 by discriminate.
  rewrite <- Hw'. apply extract_search_query_last_group. reflexivity.
Qed.

Lemma search_query_never_empty_witness :
  exists query : str,
    SmartCommandProcessor.value_of
      (@SmartCommandProcessor.extract_search_query caseless_db
         (u " What is   the capital of Norway ")
         (data_tuple [Some (u "what is"); Some (u "the capital of norway")]))
      command_processor
    = Return query
    /\ query <> [].
Proof.
  apply (@search_query_never_empty caseless_db caseless_lower_keeps_stripped).
  vm_compute. reflexivity.
Defined.

(** C7. The classification of a string is that of its trimmed,
    lower-cased form (on every processor), given that lower-casing is
    idempotent and puts no white space at the ends of a string;
    "  Hello There  " and "hello there" are both a [greeting]. *)
Theorem classify_command_normalization_invariant {U : unicode_db} :
  lower_idempotent U ->
  lower_keeps_stripped U ->
  (forall (self : SmartCommandProcessor.t) (text : str),
      SmartCommandProcessor.value_of
        (SmartCommandProcessor.classify_command
           (PyStr.lower (PyStr.strip text))) self
      = SmartCommandProcessor.value_of
          (SmartCommandProcessor.classify_command text) self)
  /\ classify (u "  Hello There  ") = classify (u "hello there")
  /\ (classify (u "  Hello There  ")).1 = "greeting"%string.
Proof.
  intros Hidem Hstrip. split_and!; [|vm_compute; reflexivity..].
  intros self text. rewrite !classify_command_value.
  by rewrite (normalized_stripped text Hstrip), Hidem.
Qed.

Lemma classify_command_normalization_invariant_witness :
  @classify caseless_db (@PyStr.lower caseless_db
                           (PyStr.strip (u "  Hello There  ")))
  = @classify caseless_db (u "  Hello There  ")
  /\ @classify caseless_db
       (@PyStr.lower caseless_db (PyStr.strip [160; 201; 84; 201; 32]))
     = @classify caseless_db [160; 201; 84; 201; 32].
Proof.
  destruct (@classify_command_normalization_invariant caseless_db
              caseless_lower_idempotent caseless_lower_keeps_stripped)
    as (H & _).
  split; apply H.
Defined.

(** ** No state *)
Section Stateless.
Context {U : unicode_db}.
Import SmartCommandProcessor.

Lemma classify_command_pair (self : t) (text : str) :
  classify_command text self = (value_of (classify_command text) self, self).
Proof.
  rewrite <- (classify_command_self self text) at 3.
  unfold value_of, self_after. by destruct (classify_command text self).
Qed.

Lemma classify_command_history (self : t) (history : list str) :
  fold_left (fun s t => self_after (classify_command t) s) history self = self.
Proof.
  induction history as [|t history IH]; simpl; [done|].
  by rewrite classify_command_self.
Qed.

End Stateless.

(** C8. [classify_command] is deterministic and keeps no state: a call
    returns the processor it ran on; two calls in a row on the same
    string return the same pair; what a call returns depends on the
    processor only through its table of compiled patterns; and no
    sequence of earlier calls changes what a later call returns. *)
Theorem classify_command_deterministic_stateless {U : unicode_db} :
  (forall (self : SmartCommandProcessor.t) (text : str),
      let (r1, self1) := SmartCommandProcessor.classify_command text self in
      let (r2, self2) := SmartCommandProcessor.classify_command text self1 in
      r1 = r2 /\ self1 = self /\ self2 = self)
  /\
  (forall (self self' : SmartCommandProcessor.t) (text : str),
      SmartCommandProcessor.compiled_patterns self
      = SmartCommandProcessor.compiled_patterns self' ->
      SmartCommandProcessor.value_of
        (SmartCommandProcessor.classify_command text) self
      = SmartCommandProcessor.value_of
          (SmartCommandProcessor.classify_command text) self')
  /\
  (forall (self : SmartCommandProcessor.t) (history : list str) (text : str),
      SmartCommandProcessor.classify_command text
        (fold_left
           (fun s t => SmartCommandProcessor.self_after
                         (SmartCommandProcessor.classify_command t) s)
           history self)
      = SmartCommandProcessor.classify_command text self).
Proof.
  split_and!.
  - intros self text. rewrite (classify_command_pair self text).
    rewrite (classify_command_pair self text). done.
  - intros self self' text H. rewrite !classify_command_value. by rewrite H.
  - intros self history text. by rewrite classify_command_history.
Qed.

Lemma classify_command_deterministic_stateless_witness :
  SmartCommandProcessor.value_of
    (@SmartCommandProcessor.classify_command caseless_db (u "open github"))
    {| SmartCommandProcessor.command_patterns :=
         SmartCommandProcessor.the_command_patterns;
       SmartCommandProcessor.compiled_patterns := [] |}
  = SmartCommandProcessor.value_of
      (@SmartCommandProcessor.classify_command caseless_db (u "open github"))
      {| SmartCommandProcessor.command_patterns := [];
         SmartCommandProcessor.compiled_patterns := [] |}.
Proof.
  destruct (@classify_command_deterministic_stateless caseless_db)
    as (_ & H & _).
  apply H. reflexivity.
Defined.

(** ** The two variants *)
Section Variants.
Context {U : unicode_db}.
Import PyStr.

Lemma what_is_excludes_search_prefixes (cmd : str) :
  startswith cmd (u "what is") = true ->
  startswith cmd (u "search for ") || startswith cmd (u "look up ") = false.
Proof.
  set (w := u "what is"). set (s := u "search for "). set (l := u "look up ").
  vm_compute in w, s, l. subst w s l.
  destruct cmd as [|c cmd]; [discriminate|].
  cbn [startswith]. destruct (N.eqb_spec c 119) as [->|]; [|discriminate].
  reflexivity.
Qed.

(** The keyword scan never takes the search branch for a command that
    starts with "what is". *)
Lemma process_command_what_is (command : str) :
  startswith (strip (lower command)) (u "what is") = true ->
  JarvisAssistant.intent_of (JarvisAssistant.process_command command)
  <> "search"%string.
Proof.
  intros H. apply what_is_excludes_search_prefixes in H.
  unfold JarvisAssistant.process_command.
  rewrite H.
  repeat match goal with
         | |- context [if ?b then _ else _] => destruct b
         end; discriminate.
Qed.

End Variants.

(** C9, as amended.  The two variants route differently.  In
    src/jarvis.py the table declares [time] and [date] before [search],
    so the time and date patterns are checked before the generic
    "what is" patterns; src/jarvis12 scans for keywords and has no rule
    for "what is" at all: no command that starts with "what is" is
    answered by its search branch.  "what is the time" is a [time] for
    the first and falls through to the general answer for the second. *)
Theorem variants_route_differently {U : unicode_db} :
  fst <$> SmartCommandProcessor.compiled_patterns command_processor
  = [ "time"; "date"; "weather"; "search"; "open_website"; "greeting";
      "thanks"; "status"; "clear" ]%string
  /\ classify (u "what is the time") = ("time"%string, data_None)
  /\ JarvisAssistant.process_command (u "what is the time")
     = JarvisAssistant.answer_ollama_or_default (u "what is the time")
  /\ (classify (u "what is the time")).1
     <> JarvisAssistant.intent_of
          (JarvisAssistant.process_command (u "what is the time"))
  /\ (forall command : str,
        PyStr.startswith (PyStr.strip (PyStr.lower command)) (u "what is")
        = true ->
        JarvisAssistant.intent_of (JarvisAssistant.process_command command)
        <> "search"%string).
Proof.
  split_and!.
  - vm_compute. reflexivity.
  - vm_compute. reflexivity.
  - vm_compute. reflexivity.
  - vm_compute. discriminate.
  - apply process_command_what_is.
Qed.

Lemma variants_route_differently_witness :
  JarvisAssistant.intent_of
    (@JarvisAssistant.process_command caseless_db (u " What is the time? "))
  <> "search"%string.
Proof.
  destruct (@variants_route_differently caseless_db) as (_ & _ & _ & _ & H).
  apply H. vm_compute. reflexivity.
Defined.

(** C9 as stated fails: neither variant checks the generic "what is"
    search patterns before the time check.  On "what is the time",
    which the second [search] pattern of src/jarvis.py is found in, that
    variant answers [time], and the keyword scan of src/jarvis12 does
    not answer with a search either. *)
Lemma what_is_before_time_counterexample :
  ~ ((@classify caseless_db (u "what is the time")).1 = "search"%string
     \/ JarvisAssistant.intent_of
          (@JarvisAssistant.process_command caseless_db
             (u "what is the time")) = "search"%string)
  /\ (exists p m,
        SmartCommandProcessor.compiled_patterns command_processor !! 3%nat
        = Some ("search"%string, p)
        /\ p !! 1%nat
           = Re.compile
               (u "^(what\s+is|who\s+is|where\s+is|when\s+is|how\s+is)\s+(.+)")
               true
        /\ (p !! 1%nat) ≫= (fun q => @Re.search caseless_db q
                                      (u "what is the time"))
           = Some m).
Proof.
  split.
  - vm_compute. intros [H|H]; discriminate.
  - do 2 eexists. split_and!.
    + vm_compute. reflexivity.
    + vm_compute. reflexivity.
    + vm_compute. reflexivity.
Qed.

(** ** The shape of the payload *)
Section Payload.
Context {U : unicode_db}.
Import PyStr SmartCommandProcessor.

(** A payload that no consumer can trip on. *)
Lemma classify_payload (text : str) (intent : string) (payload : data) :
  classify text = (intent, payload) ->
  (intent = "general"%string /\ payload = data_str (lower (strip text)))
  \/ exists ps p,
       In (intent, ps) (compiled_patterns command_processor) /\ In p ps
       /\ is_Some (Re.search p (lower (strip text)))
       /\ ((Re.groups p = 0%nat /\ payload = data_None)
           \/ exists l, payload = data_tuple l /\ length l = Re.groups p
                        /\ l <> [] /\ Forall is_Some l).
Proof.
  intros H.
  apply classify_inv in H as [?|(ps & p & m & Hps & Hp & Hm & ->)];
    [by left|right].
  exists ps, p. split_and!; [exact Hps | exact Hp | by eexists |].
  pose proof command_processor_groups_mandatory as Hg.
  unfold table_groups_mandatory in Hg. rewrite forallb_forall in Hg.
  specialize (Hg _ Hps). cbn [fst snd] in Hg.
  rewrite forallb_forall in Hg. specialize (Hg _ Hp).
  clear Hps Hp.
  apply search_from_inv in Hm as (pr & s' & _ & Hm).
  apply match_at_groups in Hm as [Hlen Hall]; [|exact Hg].
  unfold groups_or_None. destruct (decide (Re.match_groups m = [])) as [E|E].
  - left. rewrite bool_decide_eq_true_2 by exact E.
    split; [|reflexivity]. rewrite <- Hlen, E. reflexivity.
  - right. rewrite bool_decide_eq_false_2 by exact E. by eexists.
Qed.

Lemma extract_search_query_returns (self : t) (text : str) (payload : data) :
  (forall l, payload = data_tuple l -> Forall is_Some l) ->
  exists query, value_of (extract_search_query text payload) self
                = Return query.
Proof.
  intros Hl. unfold value_of, extract_search_query.
  destruct payload as [|s|l]; cbn [truthy].
  - by eexists.
  - destruct (decide (s = [])) as [->|Hs]; [by eexists|].
    rewrite bool_decide_eq_false_2 by exact Hs. cbn [negb].
    destruct (last s) eqn:E; [by eexists|]. by apply last_None in E.
  - destruct (decide (l = [])) as [->|Hne]; [by eexists|].
    rewrite bool_decide_eq_false_2 by exact Hne. cbn [negb].
    destruct (last l) as [x|] eqn:E; [|by apply last_None in E].
    specialize (Hl l eq_refl). rewrite Forall_forall in Hl.
    destruct (Hl x) as [g ->]; [|by eexists].
    by eapply last_Some_elem_of.
Qed.

Lemma site_of_returns (payload : data) :
  truthy payload = true ->
  exists site, EnhancedJarvisAssistant.site_of payload = Return site.
Proof.
  destruct payload as [|s|[|x l]]; intros H; try done; by eexists.
Qed.

Lemma process_command_returns (self : t) (command : str) :
  (forall l, (value_of (classify_command command) self).2 = data_tuple l ->
             Forall is_Some l) ->
  exists h, value_of (EnhancedJarvisAssistant.process_command command) self
            = Return h.
Proof.
  intros Hl. unfold value_of at 1, EnhancedJarvisAssistant.process_command, bind.
  rewrite classify_command_pair.
  destruct (value_of (classify_command command) self) as [intent payload].
  cbn [snd] in Hl.
  repeat match goal with
         | |- context [if String.eqb ?a ?b then _ else _] =>
             destruct (String.eqb a b)
         end; try (by eexists).
  - destruct (extract_search_query_returns self command payload Hl)
      as [q Hq].
    unfold value_of in Hq. unfold ret.
    destruct (extract_search_query command payload self) as [r self'].
    cbn [fst] in Hq |- *. subst r. by eexists.
  - unfold ret. cbn [fst]. destruct (truthy payload) eqn:Ht; [|by eexists].
    destruct (site_of_returns payload Ht) as [site ->]. by eexists.
Qed.

End Payload.

(** C10. The payload that [classify_command] returns is the trimmed,
    lower-cased text (intent [general]), or [None] (a pattern without
    groups was found), or a non-empty tuple with one element for each
    group of the pattern found, none of them [None] (in particular not
    the last, nor the first); on it neither [extract_search_query] (its
    [groups[-1].strip()]) nor the dispatcher (its [extracted_data[0]])
    raises. *)
Theorem classify_command_payload_shape {U : unicode_db} :
  forall text : str,
    (((classify text).1 = "general"%string
      /\ (classify text).2 = data_str (PyStr.lower (PyStr.strip text)))
     \/ exists ps p,
          In ((classify text).1, ps)
             (SmartCommandProcessor.compiled_patterns command_processor)
          /\ In p ps
          /\ is_Some (Re.search p (PyStr.lower (PyStr.strip text)))
          /\ ((Re.groups p = 0%nat /\ (classify text).2 = data_None)
              \/ exists l, (classify text).2 = data_tuple l
                           /\ length l = Re.groups p /\ l <> []
                           /\ Forall is_Some l
                           /\ is_Some (last l ≫= id)
                           /\ is_Some (l !! 0%nat ≫= id)))
    /\ (exists query,
          SmartCommandProcessor.value_of
            (SmartCommandProcessor.extract_search_query text
               (classify text).2) command_processor
          = Return query)
    /\ (exists h,
          SmartCommandProcessor.value_of
            (EnhancedJarvisAssistant.process_command text) command_processor
          = Return h).
Proof.
  intros text.
  destruct (classify text) as [intent payload] eqn:Ec. cbn [fst snd].
  pose proof (classify_payload text intent payload Ec) as H.
  assert (Hl : forall l, payload = data_tuple l -> Forall is_Some l).
  { intros l ->.
    destruct H as [[_ H]|(ps & p & _ & _ & _ & [[_ H]|(l' & H & _ & _ & Hall)])];
      [discriminate.. | by injection H as ->]. }
  split_and!.
  - destruct H as [H|(ps & p & Hps & Hp & Hm & H)]; [by left | right].
    exists ps, p. split_and!; [exact Hps | exact Hp | exact Hm |].
    clear Hps Hp Hm Ec.
    destruct H as [H|(l & H & Hlen & Hne & Hall)]; [by left | right].
    exists l. split_and!; [done..| |].
    + destruct (last l) as [x|] eqn:E; [|by apply last_None in E].
      rewrite Forall_forall in Hall. destruct (Hall x) as [g ->];
        [|by eexists].
      by eapply last_Some_elem_of.
    + destruct l as [|x l]; [done|]. apply Forall_cons in Hall as [[g ->] _].
      by eexists.
  - clear H Ec. by apply extract_search_query_returns.
  - apply process_command_returns. intros l Hl'. apply Hl.
    unfold classify in Ec. rewrite Ec in Hl'. exact Hl'.
Qed.

(** * Further properties of the two files *)

(** ** The conversation history is a sliding window *)
Section Window.
Context {A : Type}.

(** Appending and dropping the oldest element when the bound is
    exceeded keeps the most recent [n] elements. *)
Lemma window_step (n : nat) (h : list A) (e : A) :
  (length h <= n)%nat ->
  (if (n <? length (h ++ [e]))%nat then drop 1 (h ++ [e]) else h ++ [e])
  = drop (length (h ++ [e]) - n) (h ++ [e]).
Proof.
  intros Hlen. rewrite length_app. simpl.
  destruct (Nat.ltb_spec n (length h + 1)) as [Hlt|Hge].
  - replace (length h + 1 - n)%nat with 1%nat by lia. reflexivity.
  - replace (length h + 1 - n)%nat with 0%nat by lia. reflexivity.
Qed.

Lemma window_fold (n : nat) (step : list A -> A -> list A) :
  (forall h e, (length h <= n)%nat ->
               step h e = drop (length (h ++ [e]) - n) (h ++ [e])) ->
  forall (es h : list A), (length h <= n)%nat ->
    fold_left step es h = drop (length (h ++ es) - n) (h ++ es).
Proof.
  intros Hstep es. induction es as [|e es IH]; intros h Hlen.
  - simpl. rewrite app_nil_r.
    replace (length h - n)%nat with 0%nat by lia. reflexivity.
  - simpl. rewrite Hstep by exact Hlen.
    rewrite IH by (rewrite length_drop, length_app; simpl; lia).
    replace (h ++ e :: es) with ((h ++ [e]) ++ es)
      by (rewrite <- app_assoc; reflexivity).
    assert (HX : length (h ++ [e]) = S (length h))
      by (rewrite length_app; simpl; lia).
    set (X := h ++ [e]) in *.
    rewrite <- (drop_app_le X es) by lia.
    rewrite drop_drop. f_equal.
    rewrite length_drop, !length_app. lia.
Qed.

End Window.

(** X1. In src/jarvis.py the in-memory history after any sequence of
    [save_conversation] calls, started from a history of at most 50
    entries, is the most recent 50 of all the entries, oldest first; so
    it never holds more than 50. *)
Theorem save_conversation_keeps_latest_50 :
  forall (calls h0 : list Conversation.entry),
    (length h0 <= 50)%nat ->
    let h :=
      fold_left
        (fun h e =>
           Conversation.save_conversation
             (Conversation.speaker e) (Conversation.message e)
             (Conversation.type e) (Conversation.timestamp e) h)
        calls h0 in
    h = drop (length (h0 ++ calls) - 50) (h0 ++ calls)
    /\ (length h <= 50)%nat.
Proof.
  intros calls h0 Hlen h.
  assert (E : h = drop (length (h0 ++ calls) - 50) (h0 ++ calls)).
  { subst h. apply (window_fold 50); [|exact Hlen].
    intros h [s m t ty] Hh. unfold Conversation.save_conversation.
    cbn [Conversation.speaker Conversation.message Conversation.type
         Conversation.timestamp].
    by apply window_step. }
  split; [exact E|]. rewrite E, length_drop. lia.
Qed.

Lemma save_conversation_keeps_latest_50_witness :
  fold_left
    (fun h e =>
       Conversation.save_conversation
         (Conversation.speaker e) (Conversation.message e)
         (Conversation.type e) (Conversation.timestamp e) h)
    (map (fun n => {| Conversation.speaker := u "YOU";
                      Conversation.message := [N.of_nat n];
                      Conversation.timestamp := Z.of_nat n;
                      Conversation.type := u "text" |}) (seq 0 60))
    []
  = map (fun n => {| Conversation.speaker := u "YOU";
                     Conversation.message := [N.of_nat n];
                     Conversation.timestamp := Z.of_nat n;
                     Conversation.type := u "text" |}) (seq 10 50).
Proof.
  refine (eq_trans
    (proj1 (save_conversation_keeps_latest_50 _ [] _)) _).
  - simpl. lia.
  - vm_compute. reflexivity.
Defined.

(** X2. In src/jarvis12 the history after any sequence of
    [save_conversation] calls is the most recent 20 of all the entries,
    oldest first. *)
Theorem save_conversation12_keeps_latest_20 :
  forall (calls h0 : list (str * str)),
    (length h0 <= 20)%nat ->
    let h :=
      fold_left (fun h e => Conversation.save_conversation12 e.1 e.2 h)
                calls h0 in
    h = drop (length (h0 ++ calls) - 20) (h0 ++ calls)
    /\ (length h <= 20)%nat.
Proof.
  intros calls h0 Hlen h.
  assert (E : h = drop (length (h0 ++ calls) - 20) (h0 ++ calls)).
  { subst h. apply (window_fold 20); [|exact Hlen].
    intros h [s m] Hh. unfold Conversation.save_conversation12. cbn [fst snd].
    by apply window_step. }
  split; [exact E|]. rewrite E, length_drop. lia.
Qed.

Lemma save_conversation12_keeps_latest_20_witness :
  fold_left (fun h e => Conversation.save_conversation12 e.1 e.2 h)
            (map (fun n => (u "YOU", [N.of_nat n])) (seq 0 25)) []
  = map (fun n => (u "YOU", [N.of_nat n])) (seq 5 20).
Proof.
  refine (eq_trans
    (proj1 (save_conversation12_keeps_latest_20 _ [] _)) _).
  - simpl. lia.
  - vm_compute. reflexivity.
Defined.

(** ** The search cache *)

(** X3. After any [search_web(query)], the cache holds the returned
    result under the lower-cased query; and a later call for a query
    with the same lower-case form, made while that entry is fresh,
    returns this result and leaves the cache alone whatever the outside
    world would answer. *)
Theorem search_web_cached_round_trip {U : unicode_db} :
  forall (time : Type) (fresh : time -> time -> bool)
         (w : EnhancedWebAccess.world) (t1 t2 : time) (query : str)
         (self : EnhancedWebAccess.t time),
    let r := EnhancedWebAccess.search_web time fresh w t1 t2 query self in
    exists timestamp : time,
      EnhancedWebAccess.cache time r.2 !! PyStr.lower query
      = Some (r.1, timestamp)
      /\
      forall (w' : EnhancedWebAccess.world) (t3 t4 : time) (query' : str),
        PyStr.lower query' = PyStr.lower query ->
        fresh t3 timestamp = true ->
        EnhancedWebAccess.search_web time fresh w' t3 t4 query' r.2
        = (r.1, r.2).
Proof.
  intros time fresh w t1 t2 query self r.
  assert (H : exists timestamp,
             EnhancedWebAccess.cache time r.2 !! PyStr.lower query
             = Some (r.1, timestamp)).
  { subst r. unfold EnhancedWebAccess.search_web.
    destruct (EnhancedWebAccess.cache time self !! PyStr.lower query)
      as [[result ts]|] eqn:E.
    - destruct (fresh t1 ts).
      + exists ts. exact E.
      + exists t2. cbn. apply lookup_insert_eq.
    - exists t2. cbn. apply lookup_insert_eq. }
  destruct H as [timestamp H]. exists timestamp. split; [exact H|].
  intros w' t3 t4 query' Hq Hfresh.
  unfold EnhancedWebAccess.search_web at 1. rewrite Hq, H, Hfresh.
  reflexivity.
Qed.

Lemma search_web_cached_round_trip_witness :
  exists timestamp : nat,
    forall (w' : EnhancedWebAccess.world) (t3 t4 : nat) (query' : str),
      @PyStr.lower caseless_db query' = @PyStr.lower caseless_db (u "Owls") ->
      Nat.ltb (t3 - timestamp) 300 = true ->
      @EnhancedWebAccess.search_web nat (fun now ts => Nat.ltb (now - ts) 300)
        caseless_db w' t3 t4 query'
        (@EnhancedWebAccess.search_web nat
           (fun now ts => Nat.ltb (now - ts) 300) caseless_db
           {| EnhancedWebAccess.wikipedia_search := fun _ => None;
              EnhancedWebAccess.wikipedia_summary := fun _ =>
                inl EnhancedWebAccess.PageError;
              EnhancedWebAccess.requests_utils_quote := fun q => q;
              EnhancedWebAccess.requests_get := fun _ =>
                inl EnhancedWebAccess.RequestException;
              EnhancedWebAccess.BeautifulSoup := inr;
              EnhancedWebAccess.soup_select := fun _ _ => inr [] |}
           0%nat 7%nat (u "Owls")
           {| EnhancedWebAccess.available := false;
              EnhancedWebAccess.wikipedia_available := false;
              EnhancedWebAccess.cache := ∅ |}).2
      = (u "Web access is not available. Please install requests and beautifulsoup4.",
         (@EnhancedWebAccess.search_web nat
            (fun now ts => Nat.ltb (now - ts) 300) caseless_db
            {| EnhancedWebAccess.wikipedia_search := fun _ => None;
               EnhancedWebAccess.wikipedia_summary := fun _ =>
                 inl EnhancedWebAccess.PageError;
               EnhancedWebAccess.requests_utils_quote := fun q => q;
               EnhancedWebAccess.requests_get := fun _ =>
                 inl EnhancedWebAccess.RequestException;
               EnhancedWebAccess.BeautifulSoup := inr;
               EnhancedWebAccess.soup_select := fun _ _ => inr [] |}
            0%nat 7%nat (u "Owls")
            {| EnhancedWebAccess.available := false;
               EnhancedWebAccess.wikipedia_available := false;
               EnhancedWebAccess.cache := ∅ |}).2).
Proof.
  destruct (@search_web_cached_round_trip caseless_db nat
              (fun now ts => Nat.ltb (now - ts) 300)
              {| EnhancedWebAccess.wikipedia_search := fun _ => None;
                 EnhancedWebAccess.wikipedia_summary := fun _ =>
                   inl EnhancedWebAccess.PageError;
                 EnhancedWebAccess.requests_utils_quote := fun q => q;
                 EnhancedWebAccess.requests_get := fun _ =>
                   inl EnhancedWebAccess.RequestException;
                 EnhancedWebAccess.BeautifulSoup := inr;
                 EnhancedWebAccess.soup_select := fun _ _ => inr [] |}
              0%nat 7%nat (u "Owls")
              {| EnhancedWebAccess.available := false;
                 EnhancedWebAccess.wikipedia_available := false;
                 EnhancedWebAccess.cache := ∅ |})
    as [timestamp [_ H]].
  exists timestamp. intros w' t3 t4 query' Hq Hfresh.
  exact (H w' t3 t4 query' Hq Hfresh).
Defined.

(** X4. [search_web] never evicts and touches one key only: every key
    cached before a call is cached after it, and every key other than
    the lower-cased query keeps its entry. *)
Theorem search_web_cache_only_grows {U : unicode_db} :
  forall (time : Type) (fresh : time -> time -> bool)
         (w : EnhancedWebAccess.world) (t1 t2 : time) (query : str)
         (self : EnhancedWebAccess.t time) (key : str),
    let self' :=
      (EnhancedWebAccess.search_web time fresh w t1 t2 query self).2 in
    (is_Some (EnhancedWebAccess.cache time self !! key) ->
     is_Some (EnhancedWebAccess.cache time self' !! key))
    /\ (key <> PyStr.lower query ->
        EnhancedWebAccess.cache time self' !! key
        = EnhancedWebAccess.cache time self !! key)
    /\ EnhancedWebAccess.available time self'
       = EnhancedWebAccess.available time self
    /\ EnhancedWebAccess.wikipedia_available time self'
       = EnhancedWebAccess.wikipedia_available time self.
Proof.
  intros time fresh w t1 t2 query self key self'. subst self'.
  unfold EnhancedWebAccess.search_web.
  destruct (EnhancedWebAccess.cache time self !! PyStr.lower query)
    as [[result ts]|] eqn:E; [destruct (fresh t1 ts)|]; cbn;
    try (split_and!; [done | done | done | done]).
  - split_and!; [|by intros; apply lookup_insert_ne|done|done].
    intros Hk. destruct (decide (key = PyStr.lower query)) as [->|Hne].
    + rewrite lookup_insert_eq. by eexists.
    + by rewrite lookup_insert_ne.
  - split_and!; [|by intros; apply lookup_insert_ne|done|done].
    intros Hk. destruct (decide (key = PyStr.lower query)) as [->|Hne].
    + rewrite lookup_insert_eq. by eexists.
    + by rewrite lookup_insert_ne.
Qed.

Lemma search_web_cache_only_grows_witness :
  is_Some
    (EnhancedWebAccess.cache nat
       (@EnhancedWebAccess.search_web nat
          (fun now ts => Nat.ltb (now - ts) 300) caseless_db
          {| EnhancedWebAccess.wikipedia_search := fun _ => None;
             EnhancedWebAccess.wikipedia_summary := fun _ =>
               inl EnhancedWebAccess.PageError;
             EnhancedWebAccess.requests_utils_quote := fun q => q;
             EnhancedWebAccess.requests_get := fun _ =>
               inl EnhancedWebAccess.RequestException;
             EnhancedWebAccess.BeautifulSoup := inr;
             EnhancedWebAccess.soup_select := fun _ _ => inr [] |}
          400%nat 401%nat (u "Owls")
          {| EnhancedWebAccess.available := true;
             EnhancedWebAccess.wikipedia_available := false;
             EnhancedWebAccess.cache := {[ u "bats" := (u "Bats fly.", 0%nat) ]} |}).2
     !! u "bats").
Proof.
  eapply (@search_web_cache_only_grows caseless_db nat).
  cbn [EnhancedWebAccess.cache]. rewrite lookup_singleton_eq. by eexists.
Defined.

(** ** The replies of a web search *)
Section SearchReplies.
Import PyStr EnhancedWebAccess.

Lemma first_text_Some (elements : list (web_raised + str)) (text : str) :
  first_text elements = inr (Some text) ->
  strip text = text /\ (10 < length text)%nat.
Proof.
  induction elements as [|[e|raw] elements IH]; simpl; [done..|].
  destruct (negb (bool_decide (strip raw = [])) && (10 <? length (strip raw))%nat)
    eqn:E; [|exact IH].
  intros [= <-]. apply andb_prop in E as [_ E]. apply Nat.ltb_lt in E.
  split; [apply strip_idem | exact E].
Qed.

Lemma first_answer_Some (w : world) (soup : str) (selectors : list string)
    (text : str) :
  first_answer w soup selectors = inr (Some text) ->
  strip text = text /\ (10 < length text)%nat.
Proof.
  induction selectors as [|selector selectors IH]; simpl; [done|].
  destruct (soup_select w soup (u selector)) as [e|elements]; [done|].
  destruct (first_text elements) as [e|[t|]] eqn:E; [done| |exact IH].
  intros [= <-]. by eapply first_text_Some.
Qed.

End SearchReplies.

(** X5. [_search_web_uncached] turns every outcome of its collaborators
    into a reply: without web access it is the fixed notice, whatever
    the world; otherwise the reply is a Wikipedia summary (only when
    Wikipedia is available), a web snippet that is trimmed and longer
    than 10 characters, or one of three fixed sentences (nothing clear
    found, network error, other error). *)
Theorem search_web_uncached_replies :
  forall (time : Type) (w : EnhancedWebAccess.world) (query : str)
         (self : EnhancedWebAccess.t time),
    let r := EnhancedWebAccess._search_web_uncached time w query self in
    (EnhancedWebAccess.available time self = false /\
     r = u "Web access is not available. Please install requests and beautifulsoup4.")
    \/
    (EnhancedWebAccess.available time self = true /\
     ((EnhancedWebAccess.wikipedia_available time self = true /\
       exists summary, r = u "According to Wikipedia: " ++ summary)
      \/ (exists text, r = u "According to web sources: " ++ text
                       /\ PyStr.strip text = text
                       /\ (10 < length text)%nat)
      \/ r = u "I found some information about that topic, but couldn't extract a clear answer."
      \/ r = u "I encountered a network error while searching for information."
      \/ r = u "I encountered an error while searching for information.")).
Proof.
  intros time w query self r. subst r.
  unfold EnhancedWebAccess._search_web_uncached.
  destruct (EnhancedWebAccess.available time self); cbn [negb];
    [right; split; [reflexivity|] | left; split; reflexivity].
  destruct (EnhancedWebAccess.wikipedia_available time self) eqn:Ew.
  - destruct (EnhancedWebAccess.wikipedia_answer w query) as [a|] eqn:Ea.
    + left. split; [reflexivity|].
      unfold EnhancedWebAccess.wikipedia_answer in Ea.
      repeat match type of Ea with
             | match ?x with _ => _ end = _ => destruct x; try discriminate
             end; injection Ea as <-; by eexists.
    + right.
      destruct (EnhancedWebAccess.web_answer w query) as [[|]|[text|]] eqn:E;
        [by right; right; left | by right; right; right | | by right; left].
      left. exists text. split; [reflexivity|].
      unfold EnhancedWebAccess.web_answer in E.
      repeat match type of E with
             | match ?x with _ => _ end = _ => destruct x; try discriminate
             end.
      by eapply first_answer_Some.
  - right.
    destruct (EnhancedWebAccess.web_answer w query) as [[|]|[text|]] eqn:E;
      [by right; right; left | by right; right; right | | by right; left].
    left. exists text. split; [reflexivity|].
    unfold EnhancedWebAccess.web_answer in E.
    repeat match type of E with
           | match ?x with _ => _ end = _ => destruct x; try discriminate
           end.
    by eapply first_answer_Some.
Qed.

(** ** Opening a web site *)
Section OpenWebsite.
Context {U : unicode_db}.
Import PyStr EnhancedWebAccess.

Lemma startswith_app (s t p : str) :
  startswith s p = true -> startswith (s ++ t) p = true.
Proof.
  revert s. induction p as [|c p IH]; intros s.
  - intros _. by destruct (s ++ t).
  - destruct s as [|x s]; simpl; [done|].
    intros H. apply andb_prop in H as [-> H]. simpl. by apply IH.
Qed.

Lemma dict_get_In (d : list (string * string)) (key url : str) :
  dict_get d key = Some url -> exists k v, In (k, v) d /\ url = u v.
Proof.
  induction d as [|[k v] d IH]; simpl; [done|].
  destruct (bool_decide (key = u k)).
  - intros [= <-]. exists k, v. auto.
  - intros H. destruct (IH H) as (k' & v' & Hin & ->). exists k', v'. auto.
Qed.

Lemma sites_are_http :
  Forall (fun kv : string * string => startswith (u kv.2) (u "http") = true)
         sites.
Proof. repeat constructor. Qed.

Lemma open_website_url_http (capitalize : str -> str) (site_name : str) :
  startswith (open_website capitalize site_name).1 (u "http") = true.
Proof.
  unfold open_website.
  destruct (dict_get _ _) as [url|] eqn:E.
  - cbn [fst]. apply dict_get_In in E as (k & v & Hin & ->).
    pose proof sites_are_http as H. rewrite Forall_forall in H.
    apply (H (k, v)). by apply list_elem_of_In.
  - destruct (startswith (strip (lower site_name)) (u "http")) eqn:Es;
      cbn [fst]; [exact Es|].
    apply startswith_app. reflexivity.
Qed.

End OpenWebsite.


(** ** A command to open a site always names one *)
Section OpenArgument.
Context {U : unicode_db}.
Import PyStr Re ReShape.

Lemma repeat_more_any_returns (mk : list (option str)) (kont : cont)
    (x : cp) (t : str) :
  (forall st, is_Some (kont st)) ->
  exists x' ws t',
    t = ws ++ t' /\
    repeat_more ANY mk x t kont
    = kont {| prev := Some x'; rest := t'; marks := mk |}.
Proof.
  intros Hk.
  destruct (repeat_more_greedy ANY mk kont t x)
    as (ws & t' & x' & Et & _ & _ & Hfirst).
  exists x', ws, t'. split; [exact Et|].
  destruct (Hk {| prev := Some x'; rest := t'; marks := mk |}) as [r Hr].
  rewrite Hr. by apply Hfirst.
Qed.

(** A match of [\s+(.+)] in a text that does not end in white space:
    the group starts with a character that is not white space. *)
Lemma argument_tail_group (ic : bool) (g : nat) (st r : mstate) :
  (1 <= g <= length (marks st))%nat ->
  (forall pre tl, rest st = pre ++ tl -> tl <> [] ->
                  Forall (fun c => isspace c = true) tl -> False) ->
  sre_match ic (argument_tail g) st Some = Some r ->
  exists c w, marks r = <[Nat.pred g := Some (c :: w)]> (marks st)
              /\ isspace c = false.
Proof.
  intros Hg Htail H. unfold argument_tail in H. cbn [sre_match] in H.
  destruct (rest st) as [|x t] eqn:Erest; [done|].
  destruct (in_set CATEGORY_SPACE x) eqn:Hx; [|done].
  match type of H with
  | repeat_more _ ?mk _ _ ?k = _ =>
      destruct (repeat_more_greedy CATEGORY_SPACE mk k t x)
        as (ws & t' & x' & -> & Hws & Ht' & Hfirst)
  end.
  destruct t' as [|c t''].
  { exfalso. apply (Htail [] (x :: ws)); [|done|by constructor].
    by rewrite app_nil_r. }
  simpl in Ht'. pose proof (not_space_not_newline c Ht') as Hany.
  destruct (repeat_more_any_returns (marks st)
              (fun st3 => Some (set_mark g
                 (consumed {| prev := Some x'; rest := c :: t'';
                              marks := marks st |} st3) st3)) c t'')
    as (x3 & ws3 & t3 & Et'' & Hlast); [by eexists|].
  assert (Hr : Some r = Some (set_mark g
                 (consumed {| prev := Some x'; rest := c :: t'';
                              marks := marks st |}
                           {| prev := Some x3; rest := t3; marks := marks st |})
                 {| prev := Some x3; rest := t3; marks := marks st |})).
  { rewrite <- H. apply Hfirst. cbn [sre_match rest marks].
    rewrite Hany. exact Hlast. }
  injection Hr as ->.
  exists c, (take (length ws3) t''). split; [|exact Ht'].
  cbn [set_mark marks]. f_equal. f_equal.
  unfold consumed. cbn [rest]. rewrite Et''. cbn [length].
  rewrite length_app.
  replace (S (length ws3 + length t3) - length t3)%nat with (S (length ws3))
    by lia.
  reflexivity.
Qed.

Lemma ends_with_argument_group (ic : bool) (n g : nat) (p : op) :
  forall (st r : mstate),
    ends_with_argument n g p = true ->
    (1 <= g <= n)%nat ->
    length (marks st) = n ->
    (forall pre tl, rest st = pre ++ tl -> tl <> [] ->
                    Forall (fun c => isspace c = true) tl -> False) ->
    sre_match ic p st Some = Some r ->
    exists c w, marks r !! Nat.pred g = Some (Some (c :: w))
                /\ length (marks r) = n /\ isspace c = false.
Proof.
  induction p as [| | | | | |? ? ? ?|a _ b IHb]; intros st r Hp Hg Hlen Htail H;
    try discriminate.
  cbn [ends_with_argument] in Hp. apply andb_prop in Hp as [Ha Hb].
  cbn [sre_match] in H.
  apply sre_match_inv in H as (st1 & Hk & [pre Hpre] & [Hlen1 _] & _);
    [|by rewrite Hlen].
  assert (Htail1 : forall pre' tl, rest st1 = pre' ++ tl -> tl <> [] ->
                     Forall (fun c => isspace c = true) tl -> False).
  { intros pre' tl E. apply (Htail (pre ++ pre') tl).
    by rewrite Hpre, E, app_assoc. }
  apply orb_prop in Hb as [Hb|Hb].
  - apply bool_decide_eq_true in Hb. subst b.
    apply argument_tail_group in Hk as (c & w & -> & Hc);
      [|lia|exact Htail1].
    exists c, w. split_and!; [|rewrite length_insert; lia|exact Hc].
    apply list_lookup_insert_eq. lia.
  - apply (IHb st1 r Hb Hg); [lia | exact Htail1 | exact Hk].
Qed.

Lemma command_processor_open_shape : table_open_shape command_processor = true.
Proof. vm_compute. reflexivity. Qed.

(** The payload of a command that is classified as [open_website]. *)
Lemma open_website_payload (text : str) (payload : data) :
  lower_keeps_stripped U ->
  classify text = ("open_website"%string, payload) ->
  exists c w, payload = data_tuple [Some (c :: w)] /\ isspace c = false.
Proof.
  intros HU H.
  apply classify_inv in H as [[? _]|(ps & p & m & Hps & Hp & Hm & ->)];
    [discriminate|].
  pose proof command_processor_open_shape as Hshape.
  unfold table_open_shape in Hshape. rewrite forallb_forall in Hshape.
  specialize (Hshape _ Hps). cbn [fst snd] in Hshape.
  change (String.eqb "open_website" "open_website") with true in Hshape.
  cbn iota in Hshape.
  rewrite forallb_forall in Hshape. specialize (Hshape _ Hp).
  clear Hps Hp. apply andb_prop in Hshape as [Hshape Hgroups].
  apply Nat.eqb_eq in Hgroups.
  apply search_from_inv in Hm as (pr & s' & [k Hk] & Hm).
  unfold match_at in Hm. rewrite Hgroups in Hm.
  eapply ends_with_argument_group in Hm as (c & w & Hc & Hlen & Hsp);
    [|exact Hshape|lia|reflexivity|].
  - exists c, w. split; [|exact Hsp].
    unfold groups_or_None, match_groups.
    destruct (marks m) as [|x [|? ?]]; try discriminate.
    cbn in Hc. injection Hc as ->.
    rewrite bool_decide_eq_false_2 by discriminate. reflexivity.
  - cbn [rest]. intros pre tl -> Hne Hall.
    eapply (stripped_no_space_tail _ (k ++ pre) tl);
      [exact (normalized_stripped text HU) | | exact Hne | exact Hall].
    by rewrite Hk, app_assoc.
Qed.

End OpenArgument.

(** X7. In src/jarvis.py every command that is classified as
    [open_website] reaches the browser: the dispatcher calls
    [handle_open_website] with the captured name, which is not empty and
    starts with a character that is not white space, so the reply for a
    missing site is never given and one address, starting with "http",
    is opened.  (Given that lower-casing puts no white space at the
    ends of a string.) *)
Theorem open_website_command_opens {U : unicode_db} :
  lower_keeps_stripped U ->
  forall (capitalize : str -> str) (text : str) (payload : data),
    classify text = ("open_website"%string, payload) ->
    exists (c : N) (w url reply : str),
      PyStr.isspace c = false
      /\ SmartCommandProcessor.value_of
           (EnhancedJarvisAssistant.process_command text) command_processor
         = Return (EnhancedJarvisAssistant.handle_open_website
                     (Some (c :: w)))
      /\ EnhancedWebAccess.handle_open_website capitalize (Some (c :: w))
         = (Some url, reply)
      /\ PyStr.startswith url (u "http") = true.
Proof.
  intros HU capitalize text payload H.
  destruct (open_website_payload text payload HU H) as (c & w & -> & Hc).
  exists c, w,
    (EnhancedWebAccess.open_website capitalize (c :: w)).1,
    (EnhancedWebAccess.open_website capitalize (c :: w)).2.
  split_and!; [exact Hc | | | apply open_website_url_http].
  - unfold SmartCommandProcessor.value_of,
      EnhancedJarvisAssistant.process_command, SmartCommandProcessor.bind.
    rewrite classify_command_pair. unfold classify in H. rewrite H.
    reflexivity.
  - unfold EnhancedWebAccess.handle_open_website.
    by destruct (EnhancedWebAccess.open_website capitalize (c :: w)).
Qed.

Lemma open_website_command_opens_witness :
  exists (c : N) (w url reply : str),
    PyStr.isspace c = false
    /\ SmartCommandProcessor.value_of
         (@EnhancedJarvisAssistant.process_command caseless_db
            (u " Open  GitHub ")) command_processor
       = Return (EnhancedJarvisAssistant.handle_open_website (Some (c :: w)))
    /\ @EnhancedWebAccess.handle_open_website caseless_db (fun s => s)
         (Some (c :: w)) = (Some url, reply)
    /\ PyStr.startswith url (u "http") = true.
Proof.
  apply (@open_website_command_opens caseless_db
           caseless_lower_keeps_stripped (fun s => s) (u " Open  GitHub ")
           (data_tuple [Some (u "github")])).
  vm_compute. reflexivity.
Defined.

(** ** The display queue *)
Section DisplayQueue.
Import Display.

Lemma entry_lt_true (a b : entry) : entry_lt a b = true -> lexico a b.
Proof.
  unfold entry_lt. by destruct (trichotomyT lexico a b) as [[?|?]|?].
Qed.

Lemma entry_lt_false (a b : entry) : entry_lt a b = false -> entry_le b a.
Proof.
  unfold entry_lt, entry_le.
  destruct (trichotomyT lexico a b) as [[?|?]|?]; [done|auto..].
Qed.

Lemma entry_le_refl (a : entry) : entry_le a a.
Proof. by left. Qed.

Lemma entry_le_trans (a b c : entry) :
  entry_le a b -> entry_le b c -> entry_le a c.
Proof.
  intros [->|Hab] [->|Hbc]; unfold entry_le; auto.
  right. by etrans.
Qed.

Lemma entry_le_priority (a b : entry) :
  entry_le a b -> (a.1.1.1.1 <= b.1.1.1.1)%Z.
Proof.
  intros [->|H]; [lia|].
  destruct a as [[[[p1 t1] s1] m1] k1], b as [[[[p2 t2] s2] m2] k2].
  cbn [fst].
  repeat (destruct H as [H|[H _]]; cbn [fst snd] in H;
          [|try (injection H as -> -> -> ->; lia); try (injection H as -> -> ->; lia);
            try (injection H as -> ->; lia); try (subst; lia)]).
  unfold lexico, Z_lexico in H. lia.
Qed.

Lemma get_nowait_None (q : list entry) : get_nowait q = None -> q = [].
Proof.
  destruct q as [|e q]; [done|]. simpl.
  destruct (get_nowait q) as [[m r]|]; [|done]. by destruct (entry_lt m e).
Qed.

(** [get_nowait] takes out a least entry and leaves the others. *)
Lemma get_nowait_Some (q : list entry) (m : entry) (r : list entry) :
  get_nowait q = Some (m, r) -> q ≡ₚ m :: r /\ Forall (entry_le m) q.
Proof.
  revert m r. induction q as [|e q IH]; intros m r; simpl; [done|].
  destruct (get_nowait q) as [[m' r']|] eqn:E.
  - destruct (IH _ _ eq_refl) as [Hperm Hall].
    destruct (entry_lt m' e) eqn:Hlt; intros [= <- <-].
    + split.
      * rewrite Hperm. apply Permutation_swap.
      * constructor; [right; by apply entry_lt_true | exact Hall].
    + split; [reflexivity|].
      constructor; [apply entry_le_refl|].
      apply entry_lt_false in Hlt.
      eapply Forall_impl; [exact Hall|].
      intros x Hx. by eapply entry_le_trans.
  - intros [= <- <-]. apply get_nowait_None in E as ->.
    split; [reflexivity|]. constructor; [apply entry_le_refl | constructor].
Qed.

Lemma taken_out_sorted (fuel : nat) :
  forall q : list entry, (length q <= fuel)%nat ->
    taken_out fuel q ≡ₚ q /\ StronglySorted entry_le (taken_out fuel q).
Proof.
  induction fuel as [|fuel IH]; intros q Hlen.
  - destruct q; [|simpl in Hlen; lia]. split; [reflexivity | constructor].
  - simpl. destruct (get_nowait q) as [[m r]|] eqn:E.
    + apply get_nowait_Some in E as [Hperm Hall].
      assert (Hr : (length r <= fuel)%nat).
      { apply Permutation_length in Hperm. simpl in Hperm. lia. }
      destruct (IH r Hr) as [Hp Hs]. split.
      * rewrite Hperm. by constructor.
      * constructor; [exact Hs|].
        rewrite Hp. rewrite Hperm in Hall. by apply Forall_cons in Hall as [_ ?].
    + apply get_nowait_None in E as ->. split; [reflexivity | constructor].
Qed.

Lemma process_message_queue_taken_out (fuel : nat) :
  forall (q : list entry) (chat : list (str * string)),
    (length q <= fuel)%nat ->
    process_message_queue fuel q chat
    = ([], chat ++ concat (map render (taken_out fuel q))).
Proof.
  induction fuel as [|fuel IH]; intros q chat Hlen.
  - destruct q; [|simpl in Hlen; lia]. simpl. by rewrite app_nil_r.
  - simpl. destruct (get_nowait q) as [[m r]|] eqn:E.
    + apply get_nowait_Some in E as [Hperm _].
      rewrite IH.
      * simpl. by rewrite app_assoc.
      * apply Permutation_length in Hperm. simpl in Hperm. lia.
    + apply get_nowait_None in E as ->. simpl. by rewrite app_nil_r.
Qed.

Lemma StronglySorted_lookup_lt {A} (R : A -> A -> Prop) (l : list A) :
  StronglySorted R l ->
  forall i j a b, (i < j)%nat -> l !! i = Some a -> l !! j = Some b -> R a b.
Proof.
  induction 1 as [|x l Hs IH Hall]; intros i j a b Hij Hi Hj; [done|].
  destruct j as [|j]; [lia|]. destruct i as [|i].
  - simpl in Hi, Hj. injection Hi as <-.
    rewrite Forall_forall in Hall. apply Hall.
    by eapply list_elem_of_lookup_2.
  - simpl in Hi, Hj. apply (IH i j); [lia | done | done].
Qed.

End DisplayQueue.

(** X8. One run of [process_message_queue] in src/jarvis.py, given
    enough rounds to reach [queue.Empty], empties the queue and appends
    to the chat area the renderings of exactly the queued entries, in
    ascending order of (priority, timestamp, sender, message, thinking);
    so an entry with a smaller priority number is displayed before one
    with a larger number even when it was queued later. *)
Theorem process_message_queue_displays_by_priority :
  forall (fuel : nat) (message_queue : list Display.entry)
         (chat_area : list (str * string)),
    (length message_queue <= fuel)%nat ->
    let shown := Display.taken_out fuel message_queue in
    Display.process_message_queue fuel message_queue chat_area
    = ([], chat_area ++ concat (map Display.render shown))
    /\ shown ≡ₚ message_queue
    /\ StronglySorted Display.entry_le shown
    /\ (forall (i j : nat) (a b : Display.entry),
          shown !! i = Some a -> shown !! j = Some b ->
          (a.1.1.1.1 < b.1.1.1.1)%Z -> (i < j)%nat).
Proof.
  intros fuel q chat Hlen shown. subst shown.
  destruct (taken_out_sorted fuel q Hlen) as [Hperm Hsorted].
  split_and!; [by apply process_message_queue_taken_out | exact Hperm
               | exact Hsorted |].
  intros i j a b Hi Hj Hlt.
  destruct (decide (i < j)%nat) as [|Hge]; [done|]. exfalso.
  destruct (decide (i = j)) as [->|Hne].
  - rewrite Hi in Hj. injection Hj as ->. lia.
  - assert (Hle : Display.entry_le b a).
    { apply (StronglySorted_lookup_lt _ _ Hsorted j i); [lia | done | done]. }
    apply entry_le_priority in Hle. lia.
Qed.

Lemma process_message_queue_displays_by_priority_witness :
  Display.process_message_queue 2
    (Display.add_message 61000000 (u "JARVIS") (u "Searching...") 1 false
       (Display.add_message 60000000 (u "YOU") (u "search for owls") 2 false
          []))
    []
  = ([],
     [ (u "[00:01:01] ", "timestamp"%string);
       (u "JARVIS: ", "jarvis_sender"%string);
       (u "Searching..." ++ [10; 10]%N, "jarvis_message"%string);
       (u "[00:01:00] ", "timestamp"%string);
       (u "YOU: ", "user_sender"%string);
       (u "search for owls" ++ [10; 10]%N, "user_message"%string) ]).
Proof.
  refine (eq_trans
    (proj1 (process_message_queue_displays_by_priority 2 _ [] _)) _).
  - simpl. lia.
  - vm_compute. reflexivity.
Defined.

(** ** Temporary audio files *)
Section TempFiles.
Import AudioManager.

Lemma remove_first_subset (x p : str) (l : list str) :
  p ∈ remove_first x l -> p ∈ l.
Proof.
  induction l as [|y l IH]; simpl; [done|].
  destruct (bool_decide (y = x)).
  - intros H. by right.
  - intros [->|H]%elem_of_cons; [by left | right; auto].
Qed.

Lemma remove_first_other (x p : str) (l : list str) :
  p <> x -> p ∈ l -> p ∈ remove_first x l.
Proof.
  intros Hne. induction l as [|y l IH]; simpl; [done|].
  intros [->|H]%elem_of_cons.
  - rewrite bool_decide_eq_false_2 by done. by left.
  - destruct (bool_decide (y = x)); [done | right; auto].
Qed.

(** The loop deletes nothing but members of the list it runs over, and
    forgets nothing that is still on disk. *)
Lemma cleanup_loop_spec (raises : nat -> bool) (copy : list str) :
  forall (i : nat) (tf : list str) (fs : gset (list N)),
    let r := cleanup_loop raises i copy tf fs in
    r.2 ⊆ fs
    /\ (forall p, p ∈ fs -> p ∉ copy -> p ∈ r.2)
    /\ (forall p, p ∈ r.1 -> p ∈ tf)
    /\ (forall p, p ∈ tf -> p ∈ r.2 -> p ∈ r.1).
Proof.
  induction copy as [|f copy IH]; intros i tf fs; simpl.
  - split_and!; [done | done | done | done].
  - destruct (bool_decide (f ∈ fs)) eqn:Ef;
      [destruct (raises i)|]; try (specialize (IH (S i) tf fs); simpl in IH;
        destruct IH as (H1 & H2 & H3 & H4);
        split_and!; [exact H1 | | exact H3 | exact H4];
        intros p Hp Hn; apply H2; [exact Hp|];
        intros Hc; apply Hn; by right).
    specialize (IH (S i) (remove_first f tf) (fs ∖ {[f]})). simpl in IH.
    destruct IH as (H1 & H2 & H3 & H4). split_and!.
    + set_solver.
    + intros p Hp Hn. apply H2.
      * apply elem_of_difference. split; [exact Hp|].
        intros ->%elem_of_singleton. apply Hn. by left.
      * intros Hc. apply Hn. by right.
    + intros p Hp. eapply remove_first_subset. by apply H3.
    + intros p Hp Hfs. apply H4; [|exact Hfs].
      apply remove_first_other; [|exact Hp].
      intros ->. apply H1 in Hfs. set_solver.
Qed.

Lemma cleanup_loop_all_gone (raises : nat -> bool) (copy : list str) :
  (forall i, raises i = false) ->
  forall (i : nat) (tf : list str) (fs : gset (list N)) (p : str),
    p ∈ copy -> p ∉ (cleanup_loop raises i copy tf fs).2.
Proof.
  intros Hr. induction copy as [|f copy IH]; intros i tf fs p Hp;
    [by apply elem_of_nil in Hp|].
  simpl. rewrite Hr.
  destruct (decide (p = f)) as [->|Hne].
  - destruct (bool_decide (f ∈ fs)) eqn:Ef.
    + intros Hin.
      apply (proj1 (cleanup_loop_spec raises copy (S i)
                      (remove_first f tf) (fs ∖ {[f]}))) in Hin.
      set_solver.
    + apply bool_decide_eq_false in Ef. intros Hin. apply Ef.
      by apply (proj1 (cleanup_loop_spec raises copy (S i) tf fs)).
  - apply elem_of_cons in Hp as [?|Hp]; [done|].
    destruct (bool_decide (f ∈ fs)); by apply IH.
Qed.

Lemma cleanup_loop12_spec (raises : nat -> bool) (tf : list str) :
  forall (i : nat) (fs : gset (list N)),
    cleanup_loop12 raises i tf fs ⊆ fs
    /\ (forall p, p ∈ fs -> p ∉ tf -> p ∈ cleanup_loop12 raises i tf fs)
    /\ (forall p, p ∈ fs ->
          (forall j, tf !! j = Some p -> raises (i + j)%nat = true) ->
          p ∈ cleanup_loop12 raises i tf fs).
Proof.
  induction tf as [|f tf IH]; intros i fs; simpl; [done|].
  assert (Hshift : forall p,
            (forall j, (f :: tf) !! j = Some p -> raises (i + j)%nat = true) ->
            forall j, tf !! j = Some p -> raises (S i + j)%nat = true).
  { intros p H j Hj. replace (S i + j)%nat with (i + S j)%nat by lia.
    by apply H. }
  destruct (bool_decide (f ∈ fs)) eqn:Ef;
    [destruct (raises i) eqn:Er|];
    try (destruct (IH (S i) fs) as (H1 & H2 & H3);
         split_and!; [exact H1 | | by intros p Hp Hall; apply H3, Hshift];
         intros p Hp Hn; apply H2; [exact Hp|];
         intros Hc; apply Hn; by right).
  destruct (IH (S i) (fs ∖ {[f]})) as (H1 & H2 & H3). split_and!.
  - set_solver.
  - intros p Hp Hn. apply H2.
    + apply elem_of_difference. split; [exact Hp|].
      intros ->%elem_of_singleton. apply Hn. by left.
    + intros Hc. apply Hn. by right.
  - intros p Hp Hall. apply H3; [|by apply Hshift].
    apply elem_of_difference. split; [exact Hp|].
    intros ->%elem_of_singleton.
    specialize (Hall 0%nat eq_refl). rewrite Nat.add_0_r in Hall. congruence.
Qed.

End TempFiles.

(** X9. [AudioManager.cleanup_temp_files] of src/jarvis.py deletes
    nothing but registered files, registers nothing new, and keeps in
    the registry every registered file that is still on disk afterwards
    (one whose [os.unlink] raised), so that a later call tries it
    again. *)
Theorem cleanup_temp_files_only_registered :
  forall (unlink_raises : nat -> bool) (temp_files : list str)
         (fs : gset (list N)),
    let r := AudioManager.cleanup_temp_files unlink_raises temp_files fs in
    r.2 ⊆ fs
    /\ (forall p, p ∈ fs -> p ∉ temp_files -> p ∈ r.2)
    /\ (forall p, p ∈ r.1 -> p ∈ temp_files)
    /\ (forall p, p ∈ temp_files -> p ∈ r.2 -> p ∈ r.1).
Proof.
  intros raises tf fs. apply cleanup_loop_spec.
Qed.

Lemma cleanup_temp_files_only_registered_witness :
  u "/home/me/notes.txt"
  ∈ (AudioManager.cleanup_temp_files (fun _ => false)
       [u "/tmp/a.mp3"; u "/tmp/b.mp3"]
       {[ u "/tmp/a.mp3"; u "/home/me/notes.txt" ]}).2.
Proof.
  apply cleanup_temp_files_only_registered.
  - set_solver.
  - intros H. apply elem_of_cons in H as [H|H]; [by vm_compute in H|].
    apply elem_of_cons in H as [H|H]; [by vm_compute in H|].
    by apply elem_of_nil in H.
Defined.

(** X10. When no [os.unlink] raises, no registered file is on disk
    after [AudioManager.cleanup_temp_files]; a temporary file created
    by [temp_audio_file] on an empty registry is removed again, disk
    and registry being as before. *)
Theorem cleanup_temp_files_removes_all :
  (forall (unlink_raises : nat -> bool) (temp_files : list str)
          (fs : gset (list N)) (p : str),
      (forall i, unlink_raises i = false) ->
      p ∈ temp_files ->
      p ∉ (AudioManager.cleanup_temp_files unlink_raises temp_files fs).2)
  /\
  (forall (unlink_raises : nat -> bool) (temp_path : str)
          (fs : gset (list N)),
      unlink_raises 0%nat = false ->
      temp_path ∉ fs ->
      let created := AudioManager.temp_audio_file temp_path [] fs in
      AudioManager.cleanup_temp_files unlink_raises created.1 created.2
      = ([], fs)).
Proof.
  split.
  - intros raises tf fs p Hr Hp. by apply cleanup_loop_all_gone.
  - intros raises p fs Hr Hp. simpl.
    unfold AudioManager.cleanup_temp_files. simpl.
    rewrite bool_decide_eq_true_2 by set_solver. rewrite Hr. simpl.
    rewrite bool_decide_eq_true_2 by done. f_equal.
    apply leibniz_equiv. set_solver.
Qed.

Lemma cleanup_temp_files_removes_all_witness :
  (u "/tmp/a.mp3"
   ∉ (AudioManager.cleanup_temp_files (fun _ => false)
        [u "/tmp/a.mp3"; u "/tmp/b.mp3"]
        {[ u "/tmp/a.mp3"; u "/home/me/notes.txt" ]}).2)
  /\ AudioManager.cleanup_temp_files (fun _ => false)
       (AudioManager.temp_audio_file (u "/tmp/c.mp3") [] ∅).1
       (AudioManager.temp_audio_file (u "/tmp/c.mp3") [] ∅).2
     = ([], ∅).
Proof.
  destruct cleanup_temp_files_removes_all as [H1 H2]. split.
  - apply H1; [reflexivity | by left].
  - apply (H2 (fun _ => false) (u "/tmp/c.mp3") ∅); [reflexivity|].
    apply not_elem_of_empty.
Defined.

(** X11. [IntegratedTTS.cleanup_temp_files] of src/jarvis12 also
    deletes nothing but registered files, but it empties the registry
    whatever happened: a registered file every [os.unlink] of which
    raised is still on disk and no longer registered, so no later call
    tries it again. *)
Theorem cleanup_temp_files12_forgets_failures :
  forall (unlink_raises : nat -> bool) (temp_files : list str)
         (fs : gset (list N)),
    let r := AudioManager.cleanup_temp_files12 unlink_raises temp_files fs in
    r.1 = []
    /\ r.2 ⊆ fs
    /\ (forall p, p ∈ fs -> p ∉ temp_files -> p ∈ r.2)
    /\ (forall p, p ∈ fs ->
          (forall j, temp_files !! j = Some p -> unlink_raises j = true) ->
          p ∈ r.2).
Proof.
  intros raises tf fs. simpl.
  destruct (cleanup_loop12_spec raises tf 0 fs) as (H1 & H2 & H3).
  split_and!; [reflexivity | exact H1 | exact H2 |].
  intros p Hp Hall. apply H3; [exact Hp|]. exact Hall.
Qed.

Lemma cleanup_temp_files12_forgets_failures_witness :
  (u "/tmp/a.mp3"
   ∈ (AudioManager.cleanup_temp_files12 (fun _ => true)
        [u "/tmp/a.mp3"] {[ u "/tmp/a.mp3" ]}).2)
  /\ (AudioManager.cleanup_temp_files12 (fun _ => true)
        [u "/tmp/a.mp3"] {[ u "/tmp/a.mp3" ]}).1 = [].
Proof.
  split.
  - apply cleanup_temp_files12_forgets_failures.
    + set_solver.
    + reflexivity.
  - apply cleanup_temp_files12_forgets_failures.
Defined.

(** ** Text cleaned for speech has no doubled punctuation *)
Section CleanText.
Import PyStr EnhancedTTS.

Lemma startswith_one (c : cp) (t : str) :
  startswith t [c] = true <-> head t = Some c.
Proof.
  destruct t as [|y t]; simpl; [split; discriminate|].
  destruct (N.eqb_spec y c) as [->|Hne]; simpl.
  - split; [reflexivity | intros _; by destruct t].
  - split; [discriminate | intros [= ?]; contradiction].
Qed.

Lemma contains_pair_cons (c x : cp) (t : str) :
  contains (x :: t) [c; c] = false <->
  (x = c -> head t <> Some c) /\ contains t [c; c] = false.
Proof.
  change (contains (x :: t) [c; c])
    with (((x =? c) && startswith t [c]) || contains t [c; c]).
  pose proof (startswith_one c t) as Hh.
  destruct (N.eqb_spec x c) as [->|Hne]; cbn [andb].
  - destruct (startswith t [c]); cbn [orb].
    + split; [discriminate|]. intros [H _]. exfalso.
      apply (H eq_refl). by apply Hh.
    + split.
      * intros H. split; [|exact H]. intros _ Hc. apply Hh in Hc. discriminate.
      * intros [_ H]. exact H.
  - cbn [orb]. split.
    + intros H. split; [|exact H]. intros Hx. contradiction.
    + intros [_ H]. exact H.
Qed.

Lemma contains_pair_app (c p : cp) (l o : str) :
  Forall (fun x => x <> c) l -> l <> [] ->
  (forall q, last l = Some q -> contains (q :: o) [c; c] = false) ->
  contains (p :: l ++ o) [c; c] = false.
Proof.
  intros Hl Hne Ho. revert p.
  induction l as [|x l IH]; [done|]; intros p.
  apply Forall_cons in Hl as [Hx Hl].
  apply contains_pair_cons. split; [intros _ [= ?]; done|].
  destruct l as [|y l].
  - simpl. by apply Ho.
  - apply IH; [exact Hl | done |].
    intros q Hq. apply Ho. by rewrite last_cons_cons.
Qed.

(** [str.replace] brings no two [c] together when the replacement is
    not empty and has no [c] in it. *)
Lemma replace_from_no_pair (c : cp) (old new : str) :
  Forall (fun x => x <> c) new -> new <> [] ->
  forall (s : str) (skip : nat) (p : cp),
    contains s [c; c] = false ->
    (p = c -> skip = 0%nat /\ head s <> Some c) ->
    contains (p :: replace_from old new skip s) [c; c] = false.
Proof.
  intros Hnew Hne. induction s as [|x t IH]; intros skip p Hs Hp.
  - by destruct skip; apply contains_pair_cons.
  - apply contains_pair_cons in Hs as [Hx Ht]. cbn [replace_from].
    destruct skip as [|n].
    + destruct (startswith (x :: t) old).
      * apply contains_pair_app; [exact Hnew | exact Hne|].
        intros q Hq. apply IH; [exact Ht|].
        intros ->. rewrite Forall_forall in Hnew.
        destruct (Hnew c); [by eapply last_Some_elem_of | done].
      * apply contains_pair_cons. split.
        -- intros Hpc [= ->]. by destruct (Hp Hpc) as [_ ?].
        -- apply IH; [exact Ht|]. intros ->. split; [done | by apply Hx].
    + apply IH; [exact Ht|]. intros Hpc. by destruct (Hp Hpc).
Qed.

Lemma run_length_drop (c : cp) (s : str) :
  head (drop (run_length c s) s) <> Some c.
Proof.
  induction s as [|x t IH]; simpl; [done|].
  destruct (N.eqb_spec x c) as [->|Hne]; [exact IH|].
  simpl. by intros [= ?].
Qed.

(** [re.sub('[c]{2,}', c, s)] leaves no two [c] together. *)
Lemma sub_from_no_pair_self (c : cp) :
  forall (s : str) (skip : nat) (p : cp),
    (p = c -> head (drop skip s) <> Some c) ->
    contains (p :: sub_from c [c] skip s) [c; c] = false.
Proof.
  induction s as [|x t IH]; intros skip p Hp.
  - by destruct skip; apply contains_pair_cons.
  - cbn [sub_from]. destruct skip as [|n].
    + unfold match_run. cbn [run_length].
      destruct (N.eqb_spec x c) as [->|Hne].
      * destruct (Nat.leb_spec 2 (S (run_length c t))) as [Hrun|Hrun].
        -- cbn [app]. apply contains_pair_cons. split.
           ++ intros Hpc. by destruct (Hp Hpc).
           ++ apply IH. intros _.
              replace (S (run_length c t) - 1)%nat with (run_length c t)
                by lia.
              apply run_length_drop.
        -- apply contains_pair_cons. split.
           ++ intros Hpc. by destruct (Hp Hpc).
           ++ apply IH. intros _. simpl.
              destruct t as [|y t]; [done|]. simpl in Hrun |- *.
              destruct (N.eqb_spec y c); [lia | by intros [= ?]].
      * cbn [Nat.leb]. apply contains_pair_cons. split.
        -- intros _ [= ?]. done.
        -- apply IH. by intros ->.
    + apply IH. exact Hp.
Qed.

(** ... and brings no two of another character together. *)
Lemma sub_from_no_pair_other (c d : cp) :
  d <> c ->
  forall (s : str) (skip : nat) (p : cp),
    contains s [d; d] = false ->
    (p = d -> skip = 0%nat /\ head s <> Some d) ->
    contains (p :: sub_from c [c] skip s) [d; d] = false.
Proof.
  intros Hdc. induction s as [|x t IH]; intros skip p Hs Hp.
  - by destruct skip; apply contains_pair_cons.
  - apply contains_pair_cons in Hs as [Hx Ht]. cbn [sub_from].
    destruct skip as [|n].
    + destruct (match_run c (x :: t)).
      * cbn [app]. apply contains_pair_cons. split.
        -- intros _ [= ?]. done.
        -- apply IH; [exact Ht|]. intros ?. done.
      * apply contains_pair_cons. split.
        -- intros Hpc [= ->]. by destruct (Hp Hpc) as [_ ?].
        -- apply IH; [exact Ht|]. intros ->. split; [done | by apply Hx].
    + apply IH; [exact Ht|]. intros Hpc. by destruct (Hp Hpc).
Qed.

Lemma contains_pair_skip (c : cp) (o : str) :
  contains ((c + 1) :: o) [c; c] = false -> contains o [c; c] = false.
Proof. intros H. by apply contains_pair_cons in H as [_ ?]. Qed.

Lemma re_sub_run_no_pair_self (c : cp) (s : str) :
  contains (re_sub_run c [c] s) [c; c] = false.
Proof.
  apply contains_pair_skip, sub_from_no_pair_self. lia.
Qed.

Lemma re_sub_run_no_pair_other (c d : cp) (s : str) :
  d <> c -> contains s [d; d] = false ->
  contains (re_sub_run c [c] s) [d; d] = false.
Proof.
  intros Hdc Hs. apply contains_pair_skip, sub_from_no_pair_other; [done..|].
  lia.
Qed.

Lemma replace_no_pair (c : cp) (s old new : str) :
  Forall (fun x => x <> c) new -> new <> [] ->
  contains s [c; c] = false ->
  contains (replace s old new) [c; c] = false.
Proof.
  intros Hnew Hne Hs.
  apply contains_pair_skip, replace_from_no_pair; [done..|]. lia.
Qed.

Lemma replacements_no_pair (c : cp) (l : list (string * string)) :
  Forall (fun af : string * string =>
            Forall (fun x => x <> c) (u af.2) /\ u af.2 <> []) l ->
  forall s, contains s [c; c] = false ->
    contains (fold_left (fun text '(abbr, full) =>
                           replace text (u abbr) (u full)) l s) [c; c]
    = false.
Proof.
  induction 1 as [|[abbr full] l [H1 H2] _ IH]; intros s Hs; [exact Hs|].
  simpl. apply IH. by apply replace_no_pair.
Qed.

Lemma full_words_plain (c : cp) :
  c = ch "." \/ c = ch "!" \/ c = ch "?" ->
  Forall (fun af : string * string =>
            Forall (fun x => x <> c) (u af.2) /\ u af.2 <> []) replacements.
Proof.
  intros [-> | [-> | ->]]; repeat constructor; try discriminate.
Qed.

Lemma clean_text_no_pair (text : str) :
  contains (_clean_text text) (u "..") = false
  /\ contains (_clean_text text) (u "!!") = false
  /\ contains (_clean_text text) (u "??") = false.
Proof.
  unfold _clean_text. split_and!.
  - apply (replacements_no_pair (ch ".")); [apply full_words_plain; auto|].
    apply re_sub_run_no_pair_other; [discriminate|].
    apply re_sub_run_no_pair_other; [discriminate|].
    apply (re_sub_run_no_pair_self (ch ".")).
  - apply (replacements_no_pair (ch "!")); [apply full_words_plain; auto|].
    apply re_sub_run_no_pair_other; [discriminate|].
    apply (re_sub_run_no_pair_self (ch "!")).
  - apply (replacements_no_pair (ch "?")); [apply full_words_plain; auto|].
    apply (re_sub_run_no_pair_self (ch "?")).
Qed.

End CleanText.

(** X12. What [EnhancedTTS.speak] queues for speech never contains
    "..", "!!" or "??": [_clean_text] removes every doubled full stop,
    exclamation mark and question mark, and its replacement of
    abbreviations brings no two of them together again.  A queue that
    is free of them stays so under any sequence of [speak] calls. *)
Theorem speak_queues_no_doubled_punctuation :
  (forall text : str,
      PyStr.contains (EnhancedTTS._clean_text text) (u "..") = false
      /\ PyStr.contains (EnhancedTTS._clean_text text) (u "!!") = false
      /\ PyStr.contains (EnhancedTTS._clean_text text) (u "??") = false)
  /\
  (forall (calls : list (str * bool)) (self : EnhancedTTS.t),
      Forall (fun queued =>
                PyStr.contains queued (u "..") = false
                /\ PyStr.contains queued (u "!!") = false
                /\ PyStr.contains queued (u "??") = false)
             (EnhancedTTS.speech_queue self) ->
      Forall (fun queued =>
                PyStr.contains queued (u "..") = false
                /\ PyStr.contains queued (u "!!") = false
                /\ PyStr.contains queued (u "??") = false)
             (EnhancedTTS.speech_queue
                (fold_left (fun self call =>
                              EnhancedTTS.speak call.1 call.2 self)
                           calls self))).
Proof.
  split; [apply clean_text_no_pair|].
  intros calls. induction calls as [|[text interrupt] calls IH];
    intros self Hq; [exact Hq|].
  simpl. apply IH. unfold EnhancedTTS.speak.
  destruct (bool_decide (PyStr.strip text = []) ||
            negb (EnhancedTTS.available self)); [exact Hq|].
  cbn [EnhancedTTS.speech_queue]. apply Forall_app. split.
  - by destruct interrupt.
  - constructor; [apply clean_text_no_pair | constructor].
Qed.

Lemma speak_queues_no_doubled_punctuation_witness :
  Forall (fun queued =>
            PyStr.contains queued (u "..") = false
            /\ PyStr.contains queued (u "!!") = false
            /\ PyStr.contains queued (u "??") = false)
         (EnhancedTTS.speech_queue
            (fold_left (fun self call => EnhancedTTS.speak call.1 call.2 self)
               [ (u "Done, sir... Really?!!", false); (u "   ", true) ]
               {| EnhancedTTS.available := true;
                  EnhancedTTS.speaking := false;
                  EnhancedTTS.speech_queue := [u "Hello."] |})).
Proof.
  apply speak_queues_no_doubled_punctuation.
  constructor; [|constructor]. vm_compute. auto.
Defined.

(** ** Keywords shadow the later branches of the keyword scan *)
Section Shadowing.
Context {U : unicode_db}.
Import PyStr JarvisAssistant.

Lemma direct_commands_have_no_greeting (cmd : str) :
  in_list cmd [u "time"; u "what time"; u "what's the time"]
  || in_list cmd [u "date"; u "what date"; u "what's the date"] = true ->
  any_in ["hello"; "hi"; "hey"; "greetings"]%string cmd = false.
Proof.
  unfold in_list. cbn [existsb]. intros H.
  repeat (case_bool_decide as E; [rewrite E; vm_compute; reflexivity|clear E]).
  cbn in H. discriminate.
Qed.

End Shadowing.

(** X13. In src/jarvis12 a command whose text contains "hello", "hi",
    "hey" or "greetings" anywhere, also inside a word, is answered by
    the greeting branch (or by the clear-screen branch when it contains
    both "clear" and "screen"); it never reaches the search, open,
    weather, news or general branches. *)
Theorem process_command12_greeting_shadows {U : unicode_db} :
  forall command : str,
    JarvisAssistant.any_in ["hello"; "hi"; "hey"; "greetings"]%string
      (PyStr.strip (PyStr.lower command)) = true ->
    JarvisAssistant.process_command command = JarvisAssistant.answer_greeting
    \/ (JarvisAssistant.process_command command = JarvisAssistant.answer_clear
        /\ PyStr.contains (PyStr.strip (PyStr.lower command)) (u "clear")
           = true
        /\ PyStr.contains (PyStr.strip (PyStr.lower command)) (u "screen")
           = true).
Proof.
  intros command H. unfold JarvisAssistant.process_command.
  set (cmd := PyStr.strip (PyStr.lower command)) in *.
  pose proof (direct_commands_have_no_greeting cmd) as Hd.
  destruct (PyStr.in_list cmd [u "time"; u "what time"; u "what's the time"]).
  { rewrite Hd in H by reflexivity. discriminate. }
  destruct (PyStr.in_list cmd [u "date"; u "what date"; u "what's the date"]).
  { rewrite Hd in H by reflexivity. discriminate. }
  clear Hd.
  destruct (PyStr.contains cmd (u "clear")) eqn:Ec;
    [destruct (PyStr.contains cmd (u "screen")) eqn:Es|]; cbn [andb].
  - right. split_and!; reflexivity.
  - left. rewrite H. reflexivity.
  - left. rewrite H. reflexivity.
Qed.

Lemma process_command12_greeting_shadows_witness :
  @JarvisAssistant.process_command caseless_db (u "Search for China")
  = JarvisAssistant.answer_greeting
  \/ (@JarvisAssistant.process_command caseless_db (u "Search for China")
      = JarvisAssistant.answer_clear
      /\ PyStr.contains
           (PyStr.strip (@PyStr.lower caseless_db (u "Search for China")))
           (u "clear") = true
      /\ PyStr.contains
           (PyStr.strip (@PyStr.lower caseless_db (u "Search for China")))
           (u "screen") = true).
Proof.
  apply (@process_command12_greeting_shadows caseless_db).
  vm_compute. reflexivity.
Defined.
